(** * bobg/slices: negative-index helpers over Go slices

    A shallow embedding of [slices.go].  A Go slice is a handle
    (pointer, length, capacity) into a backing array that lives in a
    store; the handle is passed by value and the array is shared.  The
    functions of the package are written here as computations over that
    store, in the order of the source, and a run-time panic (an index or
    a slice bound out of range) is the result [None].

    The variadic parameter [vals ...T] is a slice like any other: the
    built-ins read its elements from the store at the moment they run.
    A call that lists its values, [Insert(s, 1, a, b, c)], passes a new
    slice with an array of its own ([variadic]); the specification
    speaks of such lists of values. *)

From Stdlib Require Import ZArith List Lia Bool Arith.
Import ListNotations.

Local Open Scope Z_scope.

(** ** The store and the panic monad *)

Module Mem.

Section Store.

Context {T : Type}.

(** The store: backing arrays, addressed by their rank of allocation. *)
Definition heap := list (list T).

(** A slice handle.  [off] is the position of element 0 of the slice in
    its backing array, [slen] is [len(s)] and [scap] is [cap(s)]. *)
Record slice : Type := mkSlice {
  ptr : nat;
  off : nat;
  slen : nat;
  scap : nat
}.

(** A computation reads and writes the store and may panic. *)
Definition M (A : Type) : Type := heap -> option (A * heap).

Definition ret {A} (a : A) : M A := fun h => Some (a, h).

Definition panic {A} : M A := fun _ => None.

Definition bind {A B} (m : M A) (k : A -> M B) : M B :=
  fun h => match m h with
           | Some (a, h') => k a h'
           | None => None
           end.

(** [write_at a pos data]: the array [a] with [data] stored from
    position [pos] on. *)
Definition write_at (a : list T) (pos : nat) (data : list T) : list T :=
  firstn pos a ++ data ++ skipn (pos + length data) a.

Fixpoint set_array (h : heap) (p : nat) (a : list T) : heap :=
  match h, p with
  | [], _ => []
  | _ :: h', O => a :: h'
  | b :: h', S p' => b :: set_array h' p' a
  end.

(** The array behind a pointer.  A pointer that was never allocated
    reads as the empty array; no well-formed handle holds one. *)
Definition array_at (h : heap) (p : nat) : list T := nth p h [].

Definition load_array (p : nat) : M (list T) :=
  fun h => Some (array_at h p, h).

Definition store_array (p : nat) (a : list T) : M unit :=
  fun h => Some (tt, set_array h p a).

Definition alloc_array (a : list T) : M nat :=
  fun h => Some (length h, h ++ [a]).

End Store.

Arguments heap : clear implicits.
Arguments slice : clear implicits.
Arguments M : clear implicits.

End Mem.

Export Mem.

Declare Scope go_scope.
Delimit Scope go_scope with go.
Notation "x <- m ;; k" := (bind m (fun x => k))
  (at level 61, m at next level, right associativity) : go_scope.
Notation "' pat <- m ;; k" := (bind m (fun x => match x with pat => k end))
  (at level 61, pat pattern, m at next level, right associativity) : go_scope.
Local Open Scope go_scope.

(** ** Go's built-in operations on slices *)

Section Builtins.

Context {T : Type}.

(** The zero value of [T], which fills the unused part of a fresh array. *)
Variable zero : T.

(** The growth policy of the run time: from the old capacity and the
    length that is needed, the capacity of the array that [append]
    allocates.  The language fixes only that the new array is large
    enough, hence the [Nat.max] in [append]. *)
Variable growcap : nat -> nat -> nat.

Definition len (s : slice) : Z := Z.of_nat (slen s).

Definition cap (s : slice) : Z := Z.of_nat (scap s).

(** [s[i]] as an expression: panics unless [0 <= i < len(s)]. *)
Definition index (s : slice) (i : Z) : M T T :=
  if (0 <=? i) && (i <? len s) then
    a <- load_array (ptr s) ;;
    match nth_error a (off s + Z.to_nat i) with
    | Some v => ret v
    | None => panic
    end
  else panic.

(** [s[i] = v]: panics unless [0 <= i < len(s)]. *)
Definition assign (s : slice) (i : Z) (v : T) : M T unit :=
  if (0 <=? i) && (i <? len s) then
    a <- load_array (ptr s) ;;
    store_array (ptr s) (write_at a (off s + Z.to_nat i) [v])
  else panic.

(** [s[lo:hi]]: panics unless [0 <= lo <= hi <= cap(s)]; the result
    shares the array of [s]. *)
Definition slice_expr (s : slice) (lo hi : Z) : M T slice :=
  if (0 <=? lo) && (lo <=? hi) && (hi <=? cap s) then
    ret {| ptr := ptr s;
           off := off s + Z.to_nat lo;
           slen := Z.to_nat (hi - lo);
           scap := scap s - Z.to_nat lo |}
  else panic.

(** [s[lo:]], where the upper bound defaults to [len(s)]. *)
Definition slice_from (s : slice) (lo : Z) : M T slice :=
  slice_expr s lo (len s).

(** [s[:hi]], where the lower bound defaults to 0. *)
Definition slice_to (s : slice) (hi : Z) : M T slice :=
  slice_expr s 0 hi.

(** [copy(dst, src)]: copies [min(len(dst), len(src))] elements; the
    source is read as a whole before the destination is written, so
    overlapping ranges of one array are moved correctly. *)
Definition copy (dst src : slice) : M T Z :=
  a <- load_array (ptr src) ;;
  let n := Nat.min (slen dst) (slen src) in
  let data := firstn n (skipn (off src) a) in
  b <- load_array (ptr dst) ;;
  _ <- store_array (ptr dst) (write_at b (off dst) data) ;;
  ret (Z.of_nat n).

(** [append(s, vals...)]: in place when the capacity suffices, else into
    a fresh array that holds the elements of [s], then those of
    [vals]. *)
Definition append (s vals : slice) : M T slice :=
  a <- load_array (ptr vals) ;;
  let data := firstn (slen vals) (skipn (off vals) a) in
  let need := (slen s + slen vals)%nat in
  b <- load_array (ptr s) ;;
  if (need <=? scap s)%nat then
    _ <- store_array (ptr s) (write_at b (off s + slen s) data) ;;
    ret {| ptr := ptr s; off := off s; slen := need; scap := scap s |}
  else
    let newcap := Nat.max need (growcap (scap s) need) in
    p <- alloc_array (firstn (slen s) (skipn (off s) b) ++ data
                        ++ repeat zero (newcap - need)) ;;
    ret {| ptr := p; off := 0; slen := need; scap := newcap |}.

(** The slice that a call passes for values listed as arguments: a new
    slice over a new array that holds them. *)
Definition variadic (vals : list T) : M T slice :=
  p <- alloc_array vals ;;
  ret {| ptr := p; off := 0; slen := length vals; scap := length vals |}.

(** ** The package *)

(** [if idx < 0 { idx += len(s) }] *)
Definition from_end (s : slice) (idx : Z) : Z :=
  if idx <? 0 then idx + len s else idx.

(** [if to < 0 { to += len(s) } else if to == 0 { to = len(s) }] *)
Definition to_end (s : slice) (to : Z) : Z :=
  if to <? 0 then to + len s else if to =? 0 then len s else to.

Definition Get (s : slice) (idx : Z) : M T T :=
  let idx := from_end s idx in
  index s idx.

Definition Put (s : slice) (idx : Z) (val : T) : M T unit :=
  let idx := from_end s idx in
  assign s idx val.

Definition Append (s vals : slice) : M T slice :=
  append s vals.

Definition insert (s : slice) (idx : Z) (vals : slice) : M T slice :=
  s <- append s vals ;;
  dst <- slice_from s (idx + len vals) ;;
  src <- slice_from s idx ;;
  _ <- copy dst src ;;
  dst <- slice_from s idx ;;
  _ <- copy dst vals ;;
  ret s.

Definition Insert (s : slice) (idx : Z) (vals : slice) : M T slice :=
  let idx := from_end s idx in
  insert s idx vals.

Definition removeN (s : slice) (idx n : Z) : M T slice :=
  dst <- slice_from s idx ;;
  src <- slice_from s (idx + n) ;;
  _ <- copy dst src ;;
  let newlen := len s - n in
  slice_to s newlen.

Definition replaceN (s : slice) (idx n : Z) (vals : slice) : M T slice :=
  '(s, idx, vals) <-
    (if n >? len vals then
       s <- removeN s idx (n - len vals) ;;
       ret (s, idx, vals)
     else if n <? len vals then
       let delta := len vals - n in
       head <- slice_to vals delta ;;
       s <- insert s idx head ;;
       let idx := idx + delta in
       vals <- slice_from vals delta ;;
       ret (s, idx, vals)
     else ret (s, idx, vals)) ;;
  dst <- slice_from s idx ;;
  _ <- copy dst vals ;;
  ret s.

Definition ReplaceN (s : slice) (idx n : Z) (vals : slice) : M T slice :=
  let idx := from_end s idx in
  replaceN s idx n vals.

Definition ReplaceTo (s : slice) (from to : Z) (vals : slice) : M T slice :=
  let from := from_end s from in
  let to := to_end s to in
  replaceN s from (to - from) vals.

Definition RemoveN (s : slice) (idx n : Z) : M T slice :=
  let idx := from_end s idx in
  removeN s idx n.

Definition RemoveTo (s : slice) (from to : Z) : M T slice :=
  let from := from_end s from in
  let to := to_end s to in
  removeN s from (to - from).

Definition Prefix (s : slice) (idx : Z) : M T slice :=
  let idx := from_end s idx in
  slice_to s idx.

Definition Suffix (s : slice) (idx : Z) : M T slice :=
  let idx := from_end s idx in
  slice_from s idx.

Definition SliceN (s : slice) (idx n : Z) : M T slice :=
  let idx := from_end s idx in
  slice_expr s idx (idx + n).

Definition SliceTo (s : slice) (from to : Z) : M T slice :=
  let from := from_end s from in
  let to := to_end s to in
  slice_expr s from to.

(** ** What a handle denotes in a store *)

(** The elements [s[0], ..., s[len(s)-1]]. *)
Definition contents (h : heap T) (s : slice) : list T :=
  firstn (slen s) (skipn (off s) (array_at h (ptr s))).

(** A handle is well formed in a store when its array is allocated,
    [len(s) <= cap(s)], and the [cap(s)] elements from [off] on lie in
    the array. *)
Definition valid (h : heap T) (s : slice) : Prop :=
  (ptr s < length h /\ slen s <= scap s
   /\ off s + scap s <= length (array_at h (ptr s)))%nat.

(** The handle that [s[lo:hi]] evaluates to. *)
Definition window (s : slice) (lo hi : nat) : slice :=
  {| ptr := ptr s; off := off s + lo; slen := hi - lo; scap := scap s - lo |}.

(** The position that a raw index denotes, once it is known to be
    non-negative. *)
Definition position (s : slice) (idx : Z) : nat :=
  Z.to_nat (from_end s idx).

(** [v] has no element in [s[k:cap(s)]], the part of the array of [s]
    that a splice at position [k] may write. *)
Definition apart (v s : slice) (k : nat) : Prop :=
  (ptr v <> ptr s \/ slen v = 0 \/ off v + slen v <= off s + k
   \/ off s + scap s <= off v)%nat.

End Builtins.

(** ** Machine integers

    [int] is a 64-bit signed integer and its arithmetic wraps around.
    The package adds and subtracts lengths, indices and counts, and
    every result is at once used as an index or a slice bound.  The
    functions above compute on [Z]; the facts on [wrap] further down
    show that nothing is lost: the normalization of an index never
    leaves the range of [int], and a sum or difference that wraps fails
    the bounds check just as its exact value does. *)

Definition int_min : Z := - 2 ^ 63.

Definition int_max : Z := 2 ^ 63 - 1.

Definition is_int (z : Z) : Prop := int_min <= z <= int_max.

Definition wrap (z : Z) : Z := (z + 2 ^ 63) mod 2 ^ 64 - 2 ^ 63.

(** ** A store to run the package on *)

Module Demo.

(** Two arrays: one with room to spare behind the slice, one full. *)
Definition store : heap Z := [[10; 20; 30; 0; 0]; [1; 2; 3; 4]].

(** [[10, 20, 30]], length 3, capacity 5. *)
Definition roomy : slice := mkSlice 0 0 3 5.

(** [[1, 2, 3, 4]], length 4, capacity 4. *)
Definition full : slice := mkSlice 1 0 4 4.

(** [roomy[1:3]], that is [[20, 30]], in the array of [roomy]. *)
Definition inner : slice := mkSlice 0 1 2 4.

(** [roomy[:2]], that is [[10, 20]], in the array of [roomy]. *)
Definition front : slice := mkSlice 0 0 2 5.

Definition double_cap (old need : nat) : nat := 2 * need.

End Demo.

(** ** Lists: positions after a write *)

Section ListFacts.

Context {A : Type}.

Lemma length_write_at (a : list A) pos data :
  (pos + length data <= length a)%nat ->
  length (write_at a pos data) = length a.
Proof.
  intros Hle. unfold write_at.
  rewrite !length_app, length_firstn, length_skipn. lia.
Qed.

Lemma length_set_array (h : heap A) p a :
  length (set_array h p a) = length h.
Proof.
  revert p; induction h as [|b h IH]; intros [|p]; simpl; auto.
Qed.

Lemma array_at_set_array_same (h : heap A) p a :
  length a = length (array_at h p) ->
  array_at (set_array h p a) p = a.
Proof.
  unfold array_at.
  revert p; induction h as [|b h IH]; intros p Hlen.
  - destruct a; [destruct p; reflexivity|].
    destruct p; discriminate Hlen.
  - destruct p as [|p]; simpl in *; auto.
Qed.

Lemma array_at_set_array_other (h : heap A) p q a :
  p <> q -> array_at (set_array h p a) q = array_at h q.
Proof.
  unfold array_at.
  revert p q; induction h as [|b h IH]; intros [|p] [|q] Hpq; simpl; auto;
    congruence.
Qed.

Lemma array_at_alloc (h : heap A) a :
  array_at (h ++ [a]) (length h) = a.
Proof.
  unfold array_at. rewrite app_nth2, Nat.sub_diag by lia. reflexivity.
Qed.

Lemma array_at_alloc_other (h : heap A) a p :
  (p < length h)%nat -> array_at (h ++ [a]) p = array_at h p.
Proof.
  intros Hp. unfold array_at. now rewrite app_nth1.
Qed.

Lemma set_array_same (h : heap A) p :
  set_array h p (array_at h p) = h.
Proof.
  unfold array_at.
  revert p; induction h as [|b h IH]; intros [|p]; simpl; auto.
  now rewrite IH.
Qed.

End ListFacts.

(** Two lists are equal when they agree at every position: after the
    positions are pushed through [++], [firstn] and [skipn], what is
    left is arithmetic on indices. *)
Ltac list_len :=
  repeat rewrite ?length_app, ?length_firstn, ?length_skipn,
    ?repeat_length, ?length_cons in *.

Ltac min_known :=
  repeat match goal with
    | |- context [Nat.min ?a ?b] =>
        first [ rewrite (Nat.min_l a b) by lia
              | rewrite (Nat.min_r a b) by lia ]
    end.

Ltac nth_push :=
  unfold write_at;
  repeat (rewrite ?nth_error_app, ?nth_error_firstn, ?nth_error_skipn,
            ?length_app, ?length_firstn, ?length_skipn, ?repeat_length);
  min_known.

Ltac nth_split :=
  repeat match goal with
    | |- context [(?a <? ?b)%nat] =>
        destruct (Nat.ltb_spec a b); try lia; min_known
    end.

Ltac nth_past :=
  repeat match goal with
    | |- context [nth_error ?l ?i] =>
        rewrite (proj2 (nth_error_None l i)) by (list_len; lia)
    end.

Ltac nth_close :=
  try lia;
  try reflexivity;
  try (f_equal; lia);
  try (nth_past; reflexivity).

Ltac by_positions :=
  apply nth_error_ext; intros ?i; nth_push; nth_split; nth_close.

(** ** The built-in operations on a well-formed handle *)

Section BuiltinFacts.

Context {T : Type}.
Variable zero : T.
Variable growcap : nat -> nat -> nat.

Implicit Types (h : heap T) (s t v : slice) (l : list T).

Lemma length_contents h s : valid h s -> length (contents h s) = slen s.
Proof.
  unfold valid, contents. intros (H0 & H1 & H2). list_len. lia.
Qed.

Lemma slice_expr_ok s lo hi h :
  0 <= lo <= hi -> hi <= cap s ->
  slice_expr s lo hi h = Some (window s (Z.to_nat lo) (Z.to_nat hi), h).
Proof.
  intros Hlo Hhi. unfold slice_expr, window, ret.
  replace (0 <=? lo) with true by (symmetry; apply Z.leb_le; lia).
  replace (lo <=? hi) with true by (symmetry; apply Z.leb_le; lia).
  replace (hi <=? cap s) with true by (symmetry; apply Z.leb_le; lia).
  simpl. do 3 f_equal. lia.
Qed.

Lemma slice_expr_panic s lo hi h :
  ~ (0 <= lo <= hi /\ hi <= cap s) -> slice_expr s lo hi h = None.
Proof.
  intros Hn. unfold slice_expr.
  destruct (Z.leb_spec 0 lo), (Z.leb_spec lo hi), (Z.leb_spec hi (cap s));
    simpl; try reflexivity.
  exfalso. apply Hn. lia.
Qed.

Lemma slice_from_ok h s lo (a : nat) :
  lo = Z.of_nat a -> (a <= slen s <= scap s)%nat ->
  slice_from s lo h = Some (window s a (slen s), h).
Proof.
  intros -> Ha. unfold slice_from.
  rewrite slice_expr_ok by (unfold len, cap; lia).
  unfold len. now rewrite !Nat2Z.id.
Qed.

Lemma slice_to_ok h s hi (n : nat) :
  hi = Z.of_nat n -> (n <= scap s)%nat ->
  slice_to s hi h = Some (window s 0 n, h).
Proof.
  intros -> Hn. unfold slice_to.
  rewrite slice_expr_ok by (unfold cap; lia).
  now rewrite Nat2Z.id.
Qed.

Lemma valid_window h s lo hi :
  valid h s -> (lo <= hi <= scap s)%nat -> valid h (window s lo hi).
Proof.
  unfold valid, window; simpl. lia.
Qed.

Lemma contents_window h s lo hi :
  (hi <= slen s)%nat ->
  contents h (window s lo hi) = firstn (hi - lo) (skipn lo (contents h s)).
Proof.
  intros Hhi. unfold contents, window; simpl.
  by_positions.
Qed.

Lemma contents_window_from h s lo :
  valid h s -> (lo <= slen s)%nat ->
  contents h (window s lo (slen s)) = skipn lo (contents h s).
Proof.
  intros Hv Hlo. rewrite contents_window by lia.
  pose proof (length_contents h s Hv) as Hl.
  apply firstn_all2. list_len. lia.
Qed.

Lemma window_all s : window s 0 (slen s) = s.
Proof.
  destruct s as [p o n c]. unfold window; simpl.
  now rewrite Nat.add_0_r, !Nat.sub_0_r.
Qed.

(** Storing an array of the same length keeps every handle well formed,
    and what a handle on another array denotes. *)
Lemma valid_set_array h p a t :
  length a = length (array_at h p) ->
  valid h t -> valid (set_array h p a) t.
Proof.
  intros Hlen. unfold valid. rewrite length_set_array.
  destruct (Nat.eq_dec p (ptr t)) as [<-|Hne].
  - rewrite array_at_set_array_same by assumption. lia.
  - rewrite array_at_set_array_other by assumption. auto.
Qed.

Lemma contents_set_array_other h p a t :
  ptr t <> p -> contents (set_array h p a) t = contents h t.
Proof.
  intros Hne. unfold contents.
  rewrite array_at_set_array_other by congruence. reflexivity.
Qed.

(** So does an allocation. *)
Lemma valid_alloc h a t : valid h t -> valid (h ++ [a]) t.
Proof.
  unfold valid. intros (H0 & H1 & H2).
  rewrite array_at_alloc_other by assumption. list_len. simpl. lia.
Qed.

Lemma contents_alloc h a t :
  valid h t -> contents (h ++ [a]) t = contents h t.
Proof.
  unfold valid, contents. intros (H0 & _).
  now rewrite array_at_alloc_other.
Qed.

(** A write inside the window of [s] is a write into its contents. *)
Lemma contents_write h s pos data :
  valid h s -> (pos + length data <= slen s)%nat ->
  contents
    (set_array h (ptr s) (write_at (array_at h (ptr s)) (off s + pos) data)) s
  = write_at (contents h s) pos data.
Proof.
  intros (H0 & H1 & H2) Hin. unfold contents.
  rewrite array_at_set_array_same by (apply length_write_at; lia).
  by_positions.
Qed.

Lemma valid_write h s pos data t :
  valid h s -> (pos + length data <= scap s)%nat -> valid h t ->
  valid
    (set_array h (ptr s) (write_at (array_at h (ptr s)) (off s + pos) data)) t.
Proof.
  intros (H0 & H1 & H2) Hin. apply valid_set_array.
  apply length_write_at. lia.
Qed.

(** A write into [s[pos:cap(s)]] leaves what lies apart from it. *)
Lemma contents_write_apart h s pos data t :
  valid h s -> (pos + length data <= scap s)%nat -> apart t s pos ->
  contents
    (set_array h (ptr s) (write_at (array_at h (ptr s)) (off s + pos) data)) t
  = contents h t.
Proof.
  intros (H0 & H1 & H2) Hin Hap.
  destruct (Nat.eq_dec (ptr t) (ptr s)) as [Heq|Hne].
  - unfold contents. rewrite Heq.
    rewrite array_at_set_array_same by (apply length_write_at; lia).
    destruct Hap as [Hap|[Hap|[Hap|Hap]]]; [congruence | | |];
      by_positions.
  - now apply contents_set_array_other.
Qed.

Lemma apart_later t s k k' : apart t s k -> (k <= k')%nat -> apart t s k'.
Proof.
  unfold apart. lia.
Qed.

Lemma apart_same_array t s s' k :
  apart t s k -> ptr s' = ptr s -> off s' = off s -> scap s' = scap s ->
  apart t s' k.
Proof.
  unfold apart. intros H -> -> ->. exact H.
Qed.

Lemma apart_window v s k lo hi :
  apart v s k -> (lo <= hi <= slen v)%nat -> apart (window v lo hi) s k.
Proof.
  unfold apart, window; simpl. lia.
Qed.

(** [copy(s[a:], v)]: the elements that [v] has when the copy runs land
    in [s] from [a] on, as many as fit before the end of [s]; nothing
    else changes. *)
Lemma copy_into h s a v :
  valid h s -> (a <= slen s)%nat ->
  let m := Nat.min (slen s - a) (slen v) in
  exists h',
    copy (window s a (slen s)) v h = Some (Z.of_nat m, h')
    /\ contents h' s = write_at (contents h s) a (firstn m (contents h v))
    /\ array_at h' (ptr s)
       = write_at (array_at h (ptr s)) (off s + a)
           (firstn m (skipn (off v) (array_at h (ptr v))))
    /\ (forall t, valid h t -> valid h' t)
    /\ (forall t, apart t s a -> contents h' t = contents h t).
Proof.
  intros Hv Ha m. pose proof Hv as (H0 & H1 & H2).
  set (data := firstn m (skipn (off v) (array_at h (ptr v)))).
  assert (Hdata : (length data <= m)%nat) by (unfold data; list_len; lia).
  exists (set_array h (ptr s)
            (write_at (array_at h (ptr s)) (off s + a) data)).
  split; [reflexivity|]. split; [|split; [|split]].
  - rewrite contents_write by (trivial; lia).
    f_equal. unfold data, contents. by_positions.
  - apply array_at_set_array_same, length_write_at. lia.
  - intros t. apply valid_write; trivial. lia.
  - intros t Hap. apply contents_write_apart; trivial. lia.
Qed.

(** [copy(s[a:], s[b:])]: the elements from [b] on move to [a]. *)
Lemma copy_within h s a b :
  valid h s -> (a <= slen s)%nat -> (b <= slen s)%nat ->
  let m := Nat.min (slen s - a) (slen s - b) in
  exists h',
    copy (window s a (slen s)) (window s b (slen s)) h = Some (Z.of_nat m, h')
    /\ contents h' s
       = write_at (contents h s) a (firstn m (skipn b (contents h s)))
    /\ array_at h' (ptr s)
       = write_at (array_at h (ptr s)) (off s + a)
           (firstn m (skipn (off s + b) (array_at h (ptr s))))
    /\ (forall t, valid h t -> valid h' t)
    /\ (forall t, apart t s a -> contents h' t = contents h t).
Proof.
  intros Hv Ha Hb m.
  destruct (copy_into h s a (window s b (slen s)) Hv Ha)
    as (h' & Hrun & Hc & Harr & Hvalid & Hframe).
  rewrite contents_window_from in Hc by assumption.
  exists h'. auto.
Qed.

(** [append(s, v...)] returns a well-formed handle on the elements of
    [s] followed by those of [v], whichever way the capacity decides;
    it writes behind the end of [s] or into a fresh array. *)
Lemma append_ok h s v :
  valid h s -> valid h v ->
  exists s' h',
    append zero growcap s v h = Some (s', h')
    /\ valid h' s'
    /\ slen s' = (slen s + slen v)%nat
    /\ contents h' s' = contents h s ++ contents h v
    /\ ((ptr s' = ptr s /\ off s' = off s /\ scap s' = scap s)
        \/ ptr s' = length h)
    /\ (forall t, valid h t -> valid h' t)
    /\ (forall t, valid h t -> apart t s (slen s) ->
          contents h' t = contents h t).
Proof.
  intros Hv Hvv. pose proof Hv as (H0 & H1 & H2).
  pose proof (length_contents h v Hvv) as Hlv.
  unfold append, bind, load_array.
  fold (contents h v). fold (contents h s).
  destruct (Nat.leb_spec (slen s + slen v) (scap s)) as [Hfit|Hgrow].
  - eexists _, _. split; [reflexivity|].
    split; [|split; [|split; [|split; [|split]]]]; simpl.
    + apply (valid_write h s (slen s) (contents h v)
               {| ptr := ptr s; off := off s; slen := slen s + slen v;
                  scap := scap s |}); [assumption | lia |].
      unfold valid; simpl. lia.
    + reflexivity.
    + unfold contents at 1; simpl.
      rewrite array_at_set_array_same by (apply length_write_at; lia).
      unfold contents at 2. rewrite <- Hlv. by_positions.
    + left; auto.
    + intros t. apply valid_write; [assumption | lia].
    + intros t _ Hap. apply contents_write_apart; [assumption | lia |].
      exact Hap.
  - eexists _, _. split; [reflexivity|].
    split; [|split; [|split; [|split; [|split]]]]; simpl.
    + unfold valid; simpl. rewrite array_at_alloc. list_len. simpl.
      pose proof (length_contents h s Hv). lia.
    + reflexivity.
    + unfold contents at 1; simpl. rewrite array_at_alloc.
      pose proof (length_contents h s Hv). by_positions.
    + right; reflexivity.
    + intros t. apply valid_alloc.
    + intros t Ht _. now apply contents_alloc.
Qed.

(** Values listed as arguments arrive in an array of their own. *)
Lemma variadic_ok h (vals : list T) :
  exists v h0,
    variadic vals h = Some (v, h0)
    /\ valid h0 v
    /\ contents h0 v = vals
    /\ slen v = length vals
    /\ (forall t, valid h t ->
          valid h0 t /\ contents h0 t = contents h t /\ ptr v <> ptr t).
Proof.
  eexists _, _. split; [reflexivity|]. simpl.
  split; [|split; [|split]].
  - unfold valid; simpl. rewrite array_at_alloc. list_len. simpl. lia.
  - unfold contents; simpl. rewrite array_at_alloc. apply firstn_all.
  - reflexivity.
  - intros t Ht. split; [now apply valid_alloc|].
    split; [now apply contents_alloc|].
    destruct Ht as (H0 & _). lia.
Qed.

End BuiltinFacts.

(** ** The splice primitives *)

Section PackageFacts.

Context {T : Type}.
Variable zero : T.
Variable growcap : nat -> nat -> nat.

Implicit Types (h : heap T) (s t v : slice) (l : list T).

(** [insert]: the elements of [s] keep their order around a block of
    [len(v)] elements at position [k].  The block is what [v] holds when
    the last [copy] runs: the elements of [v] as they were, when [v]
    lies apart from [s[k:cap(s)]]. *)
Lemma insert_spec h s (k : nat) v :
  valid h s -> valid h v -> (k <= slen s)%nat ->
  exists s' h' block,
    insert zero growcap s (Z.of_nat k) v h = Some (s', h')
    /\ valid h' s'
    /\ contents h' s'
       = firstn k (contents h s) ++ block ++ skipn k (contents h s)
    /\ length block = slen v
    /\ (apart v s k -> block = contents h v)
    /\ (forall t, valid h t -> valid h' t)
    /\ (forall t, valid h t -> apart t s k ->
          contents h' t = contents h t).
Proof.
  intros Hv Hvv Hk.
  destruct (append_ok zero growcap h s v Hv Hvv)
    as (s1 & h1 & Happ & Hv1 & Hlen1 & Hc1 & Hptr & Hval1 & Hfr1).
  assert (Hfresh : forall t k', valid h t -> apart t s k' -> apart t s1 k').
  { intros t k' (Ht & _) Hts. destruct Hptr as [(H1 & H2 & H3) | H1].
    - now apply (apart_same_array t s s1).
    - left. lia. }
  assert (Hkeep : forall t, valid h t -> apart t s k ->
            contents h1 t = contents h t).
  { intros t Ht Hap. apply Hfr1; [exact Ht|].
    now apply (apart_later t s k). }
  pose proof Hv1 as (_ & Hcap1 & _).
  destruct (copy_within h1 s1 (k + slen v) k Hv1)
    as (h2 & Hcopy & Hc2 & _ & Hval2 & Hfr2); try lia.
  destruct (copy_into h2 s1 k v (Hval2 _ Hv1))
    as (h3 & Hfill & Hc3 & _ & Hval3 & Hfr3); try lia.
  pose proof (length_contents h s Hv) as Hl.
  pose proof (length_contents h v Hvv) as Hlv.
  pose proof (length_contents h2 v (Hval2 _ (Hval1 _ Hvv))) as Hlv2.
  exists s1, h3, (firstn (Nat.min (slen s1 - k) (slen v)) (contents h2 v)).
  split; [|split; [|split; [|split; [|split; [|split]]]]].
  - unfold insert, bind. rewrite Happ.
    rewrite (slice_from_ok h1 s1 _ (k + slen v)) by (unfold len; lia).
    rewrite (slice_from_ok h1 s1 _ k) by lia.
    rewrite Hcopy.
    rewrite (slice_from_ok h2 s1 _ k) by lia.
    rewrite Hfill. reflexivity.
  - auto.
  - rewrite Hc3, Hc2, Hc1. rewrite Hlen1.
    by_positions.
  - list_len. lia.
  - intros Hap.
    rewrite (Hfr2 v)
      by (apply (apart_later v s1 k); [now apply Hfresh | lia]).
    rewrite (Hkeep v) by assumption.
    apply firstn_all2. lia.
  - auto.
  - intros t Ht Hap.
    rewrite Hfr3 by now apply Hfresh.
    rewrite Hfr2
      by (apply (apart_later t s1 k); [now apply Hfresh | lia]).
    now apply Hkeep.
Qed.

(** [removeN]: the block from [k + n] to the end of [s] moves left onto
    position [k], and the handle returned is [s] cut to [len(s) - n]. *)
Lemma removeN_spec h s (k n : nat) :
  valid h s -> (k + n <= slen s)%nat ->
  exists h',
    removeN s (Z.of_nat k) (Z.of_nat n) h
    = Some (window s 0 (slen s - n), h')
    /\ array_at h' (ptr s)
       = write_at (array_at h (ptr s)) (off s + k)
           (firstn (slen s - (k + n))
              (skipn (off s + (k + n)) (array_at h (ptr s))))
    /\ contents h' (window s 0 (slen s - n))
       = firstn k (contents h s) ++ skipn (k + n) (contents h s)
    /\ (forall t, valid h t -> valid h' t)
    /\ (forall t, apart t s k -> contents h' t = contents h t).
Proof.
  intros Hv Hkn. pose proof Hv as (_ & Hcap & _).
  destruct (copy_within h s k (k + n) Hv)
    as (h1 & Hcopy & Hc1 & Ha1 & Hv1 & Hfr1); try lia.
  replace (Nat.min (slen s - k) (slen s - (k + n)))
    with (slen s - (k + n))%nat in * by lia.
  exists h1. split; [|split; [|split; [|split]]].
  - unfold removeN, bind.
    rewrite (slice_from_ok h s _ k) by lia.
    rewrite (slice_from_ok h s _ (k + n)) by lia.
    rewrite Hcopy.
    apply slice_to_ok; unfold len; lia.
  - exact Ha1.
  - rewrite contents_window by lia. rewrite Hc1.
    pose proof (length_contents h s Hv) as Hl.
    by_positions.
  - exact Hv1.
  - exact Hfr1.
Qed.

Lemma write_at_same (a : list T) pos m :
  (pos + m <= length a)%nat ->
  write_at a pos (firstn m (skipn pos a)) = a.
Proof.
  intros Hle. by_positions.
Qed.

(** With [n == 0] the copy in [removeN] stores every element where it
    was: the store is left as it is. *)
Lemma removeN_zero h s (k : nat) :
  valid h s -> (k <= slen s)%nat ->
  removeN s (Z.of_nat k) 0 h = Some (s, h).
Proof.
  intros Hv Hk. pose proof Hv as (_ & Hcap & Harr).
  unfold removeN, bind.
  rewrite (slice_from_ok h s _ k) by lia.
  rewrite (slice_from_ok h s _ k) by lia.
  unfold copy, bind, load_array, store_array, ret; simpl.
  rewrite write_at_same by lia.
  rewrite set_array_same.
  rewrite (slice_to_ok h s _ (slen s)) by (unfold len; lia).
  now rewrite window_all.
Qed.

(** [replaceN]: one postcondition for its three branches.  The block
    that replaces the [n] elements is what [v] holds when it is copied:
    the elements of [v] as they were, when [v] lies apart from
    [s[k:cap(s)]]. *)
Lemma replaceN_spec h s (k n : nat) v :
  valid h s -> valid h v -> (k + n <= slen s)%nat ->
  exists s' h' block,
    replaceN zero growcap s (Z.of_nat k) (Z.of_nat n) v h = Some (s', h')
    /\ valid h' s'
    /\ contents h' s'
       = firstn k (contents h s) ++ block ++ skipn (k + n) (contents h s)
    /\ length block = slen v
    /\ (apart v s k -> block = contents h v).
Proof.
  intros Hv Hvv Hkn. pose proof Hv as (_ & Hcap & _).
  pose proof Hvv as (_ & Hcapv & _).
  pose proof (length_contents h s Hv) as Hl.
  pose proof (length_contents h v Hvv) as Hlv.
  unfold replaceN, bind, len.
  destruct (Z.gtb_spec (Z.of_nat n) (Z.of_nat (slen v))) as [Hgt|Hle].
  - (* Removing more items than inserting. *)
    destruct (removeN_spec h s k (n - slen v) Hv)
      as (h1 & Hrem & _ & Hc1 & Hv1 & Hfr1); try lia.
    replace (Z.of_nat n - Z.of_nat (slen v))
      with (Z.of_nat (n - slen v)) by lia.
    rewrite Hrem.
    set (s1 := window s 0 (slen s - (n - slen v))) in *.
    assert (Hvs1 : valid h1 s1)
      by (apply valid_window; [auto | lia]).
    destruct (copy_into h1 s1 k v Hvs1)
      as (h2 & Hfill & Hc2 & _ & Hv2 & _); [simpl; lia|].
    unfold ret. cbv beta iota.
    rewrite (slice_from_ok h1 s1 _ k) by (simpl; lia).
    rewrite Hfill.
    pose proof (length_contents h1 v (Hv1 _ Hvv)) as Hlv1.
    exists s1, h2, (contents h1 v).
    split; [reflexivity|]. split; [auto|]. split; [|split].
    + rewrite Hc2, Hc1. simpl. by_positions.
    + exact Hlv1.
    + intros Hne. now apply Hfr1.
  - destruct (Z.ltb_spec (Z.of_nat n) (Z.of_nat (slen v))) as [Hlt|Hge].
    + (* Inserting more items than removing. *)
      set (d := (slen v - n)%nat).
      assert (Hd : (d <= slen v)%nat) by (unfold d; lia).
      rewrite (slice_to_ok h v _ d) by (unfold d; lia).
      set (head := window v 0 d).
      set (rest := window v d (slen v)).
      assert (Hhead : valid h head) by (apply valid_window; [auto | lia]).
      assert (Hrest : valid h rest) by (apply valid_window; [auto | lia]).
      assert (Hchead : contents h head = firstn d (contents h v)).
      { unfold head. rewrite contents_window by lia.
        now rewrite Nat.sub_0_r. }
      assert (Hcrest : contents h rest = skipn d (contents h v))
        by (apply contents_window_from; assumption).
      destruct (insert_spec h s k head Hv Hhead)
        as (s1 & h1 & front & Hins & Hv1 & Hc1 & Hlf & Hfront & Hval1
            & Hfr1); try lia.
      rewrite Hins.
      rewrite (slice_from_ok h1 v _ d) by (unfold d; lia).
      fold rest. unfold ret. cbv beta iota.
      pose proof (length_contents h1 s1 Hv1) as Hl1.
      rewrite Hc1 in Hl1. list_len.
      pose proof (length_contents h1 rest (Hval1 _ Hrest)) as Hlr1.
      simpl in Hlf, Hlr1.
      destruct (copy_into h1 s1 (k + d) rest Hv1)
        as (h2 & Hfill & Hc2 & _ & Hv2 & _); [unfold d in *; lia|].
      rewrite (slice_from_ok h1 s1 _ (k + d))
        by (destruct Hv1 as (_ & ? & _); unfold d in *; lia).
      rewrite Hfill.
      exists s1, h2, (front ++ contents h1 rest).
      split; [reflexivity|]. split; [auto|]. split; [|split].
      * rewrite Hc2, Hc1. unfold rest, d in *. simpl. by_positions.
      * list_len. unfold d in *. lia.
      * intros Hap.
        rewrite Hfront by (apply apart_window; [exact Hap | lia]).
        rewrite (Hfr1 rest Hrest)
          by (apply apart_window; [exact Hap | lia]).
        rewrite Hchead, Hcrest. apply firstn_skipn.
    + (* As many as removed: overwrite in place. *)
      unfold ret. cbv beta iota.
      destruct (copy_into h s k v Hv)
        as (h1 & Hfill & Hc1 & _ & Hv1 & _); try lia.
      rewrite (slice_from_ok h s _ k) by lia.
      rewrite Hfill.
      exists s, h1, (contents h v).
      split; [reflexivity|]. split; [auto|]. split; [|split].
      * rewrite Hc1. by_positions.
      * exact Hlv.
      * reflexivity.
Qed.

End PackageFacts.

(** ** Element access on a well-formed handle *)

Section AccessFacts.

Context {T : Type}.

Implicit Types (h : heap T) (s t : slice) (l : list T).

Lemma nth_error_contents h s (i : nat) :
  (i < slen s)%nat ->
  nth_error (contents h s) i = nth_error (array_at h (ptr s)) (off s + i).
Proof.
  intros Hi. unfold contents. nth_push.
  destruct (Nat.ltb_spec i (slen s)); [reflexivity | lia].
Qed.

Lemma index_ok h s i :
  valid h s -> 0 <= i < len s ->
  exists x, index s i h = Some (x, h)
            /\ nth_error (contents h s) (Z.to_nat i) = Some x.
Proof.
  intros (H0 & H1 & H2) Hi. unfold len in Hi. unfold index, bind, load_array, len.
  replace (0 <=? i) with true by (symmetry; apply Z.leb_le; lia).
  replace (i <? Z.of_nat (slen s)) with true
    by (symmetry; apply Z.ltb_lt; lia).
  simpl. rewrite nth_error_contents by lia.
  destruct (nth_error (array_at h (ptr s)) (off s + Z.to_nat i))
    as [x|] eqn:Hx.
  - exists x. split; reflexivity.
  - apply nth_error_None in Hx. lia.
Qed.

Lemma index_panic h s i : ~ 0 <= i < len s -> index s i h = None.
Proof.
  intros Hi. unfold index.
  destruct (Z.leb_spec 0 i), (Z.ltb_spec i (len s)); simpl;
    try reflexivity.
  lia.
Qed.

Lemma assign_ok h s i v :
  valid h s -> 0 <= i < len s ->
  exists h', assign s i v h = Some (tt, h')
             /\ contents h' s = write_at (contents h s) (Z.to_nat i) [v]
             /\ (forall t, valid h t -> valid h' t).
Proof.
  intros Hv Hi. pose proof Hv as (H0 & H1 & H2). unfold len in Hi.
  unfold assign, bind, load_array, store_array, len.
  replace (0 <=? i) with true by (symmetry; apply Z.leb_le; lia).
  replace (i <? Z.of_nat (slen s)) with true
    by (symmetry; apply Z.ltb_lt; lia).
  simpl. eexists. split; [reflexivity|]. split.
  - apply contents_write; [assumption | simpl; lia].
  - intros t. apply valid_write; [assumption | simpl; lia].
Qed.

Lemma assign_panic h s i v : ~ 0 <= i < len s -> assign s i v h = None.
Proof.
  intros Hi. unfold assign.
  destruct (Z.leb_spec 0 i), (Z.ltb_spec i (len s)); simpl;
    try reflexivity.
  lia.
Qed.

Lemma from_end_position s idx :
  0 <= from_end s idx -> from_end s idx = Z.of_nat (position s idx).
Proof.
  unfold position. lia.
Qed.

Lemma from_end_nonneg s idx : 0 <= idx -> from_end s idx = idx.
Proof.
  intros H. unfold from_end.
  destruct (Z.ltb_spec idx 0); [lia | reflexivity].
Qed.


End AccessFacts.

(** ** Exact arithmetic is what the machine computes *)

Section IntFacts.

Context {T : Type}.

Implicit Types (s : slice).

Lemma wrap_exact z : is_int z -> wrap z = z.
Proof.
  unfold is_int, int_min, int_max, wrap. intros Hz.
  rewrite Z.mod_small; lia.
Qed.

Lemma wrap_is_int z : is_int (wrap z).
Proof.
  unfold is_int, int_min, int_max, wrap.
  pose proof (Z.mod_pos_bound (z + 2 ^ 63) (2 ^ 64)). lia.
Qed.

(** [idx += len(s)] under [idx < 0] stays between [idx] and [len(s)]. *)
Lemma from_end_exact s idx :
  is_int idx -> len s <= int_max ->
  (if idx <? 0 then wrap (idx + len s) else idx) = from_end s idx
  /\ is_int (from_end s idx).
Proof.
  unfold from_end, len. intros Hidx Hlen.
  destruct (Z.ltb_spec idx 0) as [Hneg|Hpos].
  - assert (Hsum : is_int (idx + Z.of_nat (slen s)))
      by (unfold is_int, int_min, int_max in *; lia).
    split; [now apply wrap_exact | exact Hsum].
  - split; [reflexivity | exact Hidx].
Qed.

Lemma to_end_exact s to :
  is_int to -> len s <= int_max ->
  (if to <? 0 then wrap (to + len s)
   else if to =? 0 then len s else to) = to_end s to
  /\ is_int (to_end s to).
Proof.
  unfold to_end, len. intros Hto Hlen.
  destruct (Z.ltb_spec to 0) as [Hneg|Hpos].
  - assert (Hsum : is_int (to + Z.of_nat (slen s)))
      by (unfold is_int, int_min, int_max in *; lia).
    split; [now apply wrap_exact | exact Hsum].
  - destruct (Z.eqb_spec to 0); (split; [reflexivity|]);
      unfold is_int, int_min, int_max in *; lia.
Qed.

(** A sum with a non-negative operand, such as [idx + len(vals)] and
    [idx + n] behind the check of [s[idx:]], passes a bounds check as a
    machine integer exactly when it does as an exact one. *)
Lemma checked_sum_exact a b bound :
  is_int a -> is_int b -> 0 <= a \/ 0 <= b -> 0 <= bound <= int_max ->
  (0 <= wrap (a + b) <= bound <-> 0 <= a + b <= bound).
Proof.
  unfold is_int, int_min, int_max. intros Ha Hb Hsign Hbound.
  destruct (Z_le_gt_dec (a + b) (2 ^ 63 - 1)) as [Hfit|Hover].
  - rewrite wrap_exact by (unfold is_int, int_min, int_max; lia).
    reflexivity.
  - assert (Hw : wrap (a + b) = a + b - 2 ^ 64).
    { unfold wrap.
      replace (a + b + 2 ^ 63) with (a + b - 2 ^ 63 + 1 * 2 ^ 64) by lia.
      rewrite Z.mod_add by lia. rewrite Z.mod_small; lia. }
    rewrite Hw. lia.
Qed.

(** The same for a difference from a non-negative value, such as
    [len(s) - n] and [len(vals) - n]. *)
Lemma checked_difference_exact a b bound :
  is_int a -> is_int b -> 0 <= a -> 0 <= bound <= int_max ->
  (0 <= wrap (a - b) <= bound <-> 0 <= a - b <= bound).
Proof.
  unfold is_int, int_min, int_max. intros Ha Hb Hsign Hbound.
  destruct (Z_le_gt_dec (a - b) (2 ^ 63 - 1)) as [Hfit|Hover].
  - rewrite wrap_exact by (unfold is_int, int_min, int_max; lia).
    reflexivity.
  - assert (Hw : wrap (a - b) = a - b - 2 ^ 64).
    { unfold wrap.
      replace (a - b + 2 ^ 63) with (a - b - 2 ^ 63 + 1 * 2 ^ 64) by lia.
      rewrite Z.mod_add by lia. rewrite Z.mod_small; lia. }
    rewrite Hw. lia.
Qed.

End IntFacts.


(** ** The package against its specification *)

Section Claims.

Context {T : Type}.
Variable zero : T.
Variable growcap : nat -> nat -> nat.

Implicit Types (h : heap T) (s t : slice) (vals l : list T).

(** C1.  [Insert(s, idx, vals...)], for an index whose normalized value
    lies in [[0, len(s)]] and for any list of values, returns a slice in
    which the values occupy the positions from the normalized index on,
    in order; the elements of [s] from that position on have moved
    right by [len(vals)]; those before it have kept their positions.
    In particular [Insert([x,y,z], 1, a,b,c)] is [[x,a,b,c,y,z]].
    The same holds for values that are stored, as long as they lie
    apart from the part of [s] behind the index. *)
Theorem Insert_places_values h s idx :
  valid h s -> 0 <= from_end s idx <= len s ->
  (forall vals,
     exists s' h',
       (v <- variadic vals ;; Insert zero growcap s idx v) h = Some (s', h')
       /\ contents h' s'
          = firstn (position s idx) (contents h s) ++ vals
              ++ skipn (position s idx) (contents h s)
       /\ (forall j, (j < length vals)%nat ->
             nth_error (contents h' s') (position s idx + j)
             = nth_error vals j)
       /\ (forall j, (position s idx <= j < slen s)%nat ->
             nth_error (contents h' s') (j + length vals)
             = nth_error (contents h s) j)
       /\ (forall j, (j < position s idx)%nat ->
             nth_error (contents h' s') j = nth_error (contents h s) j)
       /\ (forall x y z a b c,
             contents h s = [x; y; z] -> idx = 1 -> vals = [a; b; c] ->
             contents h' s' = [x; a; b; c; y; z]))
  /\ (forall v, valid h v -> apart v s (position s idx) ->
        exists s' h',
          Insert zero growcap s idx v h = Some (s', h')
          /\ contents h' s'
             = firstn (position s idx) (contents h s) ++ contents h v
                 ++ skipn (position s idx) (contents h s)).
Proof.
  intros Hv Hidx.
  pose proof (length_contents h s Hv) as Hl. unfold len in Hidx.
  assert (Hk : (position s idx <= slen s)%nat) by (unfold position; lia).
  split.
  - intros vals. unfold Insert, bind.
    destruct (variadic_ok h vals)
      as (v & h0 & Hvar & Hvv & Hcv & _ & Hkeep).
    destruct (Hkeep s Hv) as (Hv0 & Hc0 & Hne).
    destruct (insert_spec zero growcap h0 s (position s idx) v Hv0 Hvv Hk)
      as (s' & h' & block & Hrun & _ & Hc & _ & Hblock & _).
    rewrite <- from_end_position in Hrun by lia.
    rewrite Hblock, Hc0, Hcv in Hc by (left; exact Hne).
    exists s', h'. rewrite Hvar. split; [exact Hrun|]. split; [exact Hc|].
    rewrite Hc. repeat split.
    + intros j Hj. nth_push. nth_split. f_equal. lia.
    + intros j Hj. nth_push. nth_split. f_equal. lia.
    + intros j Hj. nth_push. nth_split. reflexivity.
    + intros x y z a b c Hxyz -> ->. rewrite Hxyz. reflexivity.
  - intros v Hvv Hap. unfold Insert.
    destruct (insert_spec zero growcap h s (position s idx) v Hv Hvv Hk)
      as (s' & h' & block & Hrun & _ & Hc & _ & Hblock & _).
    rewrite <- from_end_position in Hrun by lia.
    rewrite Hblock in Hc by exact Hap.
    exists s', h'. split; [exact Hrun | exact Hc].
Qed.

(** C2.  [ReplaceN(s, idx, n, vals...)], for a normalized index, a
    count [n >= 0] with [idx + n <= len(s)] and any list of values, has
    one postcondition whichever of [n > len(vals)], [n < len(vals)],
    [n == len(vals)] holds: the positions from [idx] on hold [vals] in
    order, the elements before [idx] are untouched, and the elements of
    [s] from [idx + n] on are found [len(vals) - n] positions further.
    In particular [ReplaceN([a,b,c,d], 1, 2, x,y,z)] is [[a,x,y,z,d]]
    and [ReplaceN([a,b,c,d], 1, 3, x)] is [[a,x]].  The same holds for
    values that are stored, as long as they lie apart from the part of
    [s] behind the index. *)
Theorem ReplaceN_postcondition h s idx n :
  valid h s -> 0 <= from_end s idx -> 0 <= n ->
  from_end s idx + n <= len s ->
  (forall vals,
     exists s' h',
       (v <- variadic vals ;; ReplaceN zero growcap s idx n v) h
       = Some (s', h')
       /\ contents h' s'
          = firstn (position s idx) (contents h s) ++ vals
              ++ skipn (position s idx + Z.to_nat n) (contents h s)
       /\ (forall j, (j < length vals)%nat ->
             nth_error (contents h' s') (position s idx + j)
             = nth_error vals j)
       /\ (forall j, (j < position s idx)%nat ->
             nth_error (contents h' s') j = nth_error (contents h s) j)
       /\ (forall j, (position s idx + Z.to_nat n <= j < slen s)%nat ->
             nth_error (contents h' s') (j + length vals - Z.to_nat n)
             = nth_error (contents h s) j)
       /\ (forall a b c d x y z,
             contents h s = [a; b; c; d] -> idx = 1 -> n = 2 ->
             vals = [x; y; z] -> contents h' s' = [a; x; y; z; d])
       /\ (forall a b c d x,
             contents h s = [a; b; c; d] -> idx = 1 -> n = 3 ->
             vals = [x] -> contents h' s' = [a; x]))
  /\ (forall v, valid h v -> apart v s (position s idx) ->
        exists s' h',
          ReplaceN zero growcap s idx n v h = Some (s', h')
          /\ contents h' s'
             = firstn (position s idx) (contents h s) ++ contents h v
                 ++ skipn (position s idx + Z.to_nat n) (contents h s)).
Proof.
  intros Hv Hidx Hn Hend.
  pose proof (length_contents h s Hv) as Hl. unfold len in Hend.
  assert (Hk : (position s idx + Z.to_nat n <= slen s)%nat)
    by (unfold position; lia).
  split.
  - intros vals. unfold ReplaceN, bind.
    destruct (variadic_ok h vals)
      as (v & h0 & Hvar & Hvv & Hcv & _ & Hkeep).
    destruct (Hkeep s Hv) as (Hv0 & Hc0 & Hne).
    destruct (replaceN_spec zero growcap h0 s (position s idx) (Z.to_nat n)
                v Hv0 Hvv Hk)
      as (s' & h' & block & Hrun & _ & Hc & _ & Hblock).
    rewrite <- from_end_position, Z2Nat.id in Hrun by lia.
    rewrite Hblock, Hc0, Hcv in Hc by (left; exact Hne).
    exists s', h'. rewrite Hvar. split; [exact Hrun|]. split; [exact Hc|].
    rewrite Hc. repeat split.
    + intros j Hj. nth_push. nth_split. f_equal. lia.
    + intros j Hj. nth_push. nth_split. reflexivity.
    + intros j Hj. nth_push. nth_split. f_equal. lia.
    + intros a b c d x y z Habcd -> -> ->. rewrite Habcd. reflexivity.
    + intros a b c d x Habcd -> -> ->. rewrite Habcd. reflexivity.
  - intros v Hvv Hap. unfold ReplaceN.
    destruct (replaceN_spec zero growcap h s (position s idx) (Z.to_nat n)
                v Hv Hvv Hk)
      as (s' & h' & block & Hrun & _ & Hc & _ & Hblock).
    rewrite <- from_end_position, Z2Nat.id in Hrun by lia.
    rewrite Hblock in Hc by exact Hap.
    exists s', h'. split; [exact Hrun | exact Hc].
Qed.

(** C3.  [RemoveN] undoes [Insert]: for an index [idx] in
    [[0, len(s)]], removing [len(vals)] elements at [idx] from
    [Insert(s, idx, vals...)] gives a slice with the elements of [s], as
    many and in the same order.  This holds for values stored anywhere,
    and so for values listed as arguments. *)
Theorem RemoveN_undoes_Insert h s idx :
  valid h s -> 0 <= idx <= len s ->
  (forall v, valid h v ->
     exists s2 h2,
       (s1 <- Insert zero growcap s idx v ;; RemoveN s1 idx (len v)) h
       = Some (s2, h2)
       /\ contents h2 s2 = contents h s
       /\ len s2 = len s)
  /\ (forall vals,
        exists s2 h2,
          (v <- variadic vals ;;
           s1 <- Insert zero growcap s idx v ;;
           RemoveN s1 idx (len v)) h = Some (s2, h2)
          /\ contents h2 s2 = contents h s
          /\ len s2 = len s).
Proof.
  assert (Hany : forall h s v, valid h s -> 0 <= idx <= len s -> valid h v ->
            exists s2 h2,
              (s1 <- Insert zero growcap s idx v ;; RemoveN s1 idx (len v)) h
              = Some (s2, h2)
              /\ contents h2 s2 = contents h s
              /\ len s2 = len s).
  { clear h s. intros h s v Hv Hidx Hvv. unfold Insert, RemoveN, bind.
    pose proof (length_contents h s Hv) as Hl. unfold len in Hidx.
    set (k := Z.to_nat idx).
    assert (Hk : (k <= slen s)%nat) by (unfold k; lia).
    destruct (insert_spec zero growcap h s k v Hv Hvv Hk)
      as (s1 & h1 & block & Hins & Hv1 & Hc1 & Hlb & _).
    pose proof (length_contents h1 s1 Hv1) as Hl1.
    rewrite Hc1 in Hl1. list_len.
    assert (Hkn : (k + slen v <= slen s1)%nat) by lia.
    destruct (removeN_spec h1 s1 k (slen v) Hv1 Hkn)
      as (h2 & Hrem & _ & Hc2 & _).
    rewrite !from_end_nonneg by lia.
    replace idx with (Z.of_nat k) by (unfold k; lia).
    rewrite Hins. unfold len at 1.
    rewrite (from_end_nonneg s1) by lia.
    exists (window s1 0 (slen s1 - slen v)), h2.
    split; [exact Hrem|]. split.
    - rewrite Hc2, Hc1. by_positions.
    - unfold len; simpl. lia. }
  intros Hv Hidx. split.
  - intros v Hvv. now apply Hany.
  - intros vals.
    destruct (variadic_ok h vals) as (v & h0 & Hvar & Hvv & _ & _ & Hkeep).
    destruct (Hkeep s Hv) as (Hv0 & Hc0 & _).
    destruct (Hany h0 s v Hv0 Hidx Hvv) as (s2 & h2 & Hrun & Hc & Hlen).
    exists s2, h2. unfold bind at 1. rewrite Hvar.
    split; [exact Hrun|]. split; [congruence | exact Hlen].
Qed.

(** C4.  Length algebra, for arguments in range:
    [len(Insert(s, idx, vals...)) == len(s) + len(vals)],
    [len(RemoveN(s, idx, n)) == len(s) - n] and
    [len(ReplaceN(s, idx, n, vals...)) == len(s) - n + len(vals)].
    This holds for values stored anywhere, and so for values listed as
    arguments. *)
Theorem length_algebra h s idx n :
  valid h s -> 0 <= from_end s idx ->
  (from_end s idx <= len s ->
     (forall v, valid h v ->
        exists s' h', Insert zero growcap s idx v h = Some (s', h')
                      /\ len s' = len s + len v)
     /\ (forall vals,
           exists s' h',
             (v <- variadic vals ;; Insert zero growcap s idx v) h
             = Some (s', h')
             /\ len s' = len s + Z.of_nat (length vals)))
  /\ (0 <= n -> from_end s idx + n <= len s ->
        exists s' h', RemoveN s idx n h = Some (s', h')
                      /\ len s' = len s - n)
  /\ (0 <= n -> from_end s idx + n <= len s ->
        (forall v, valid h v ->
           exists s' h', ReplaceN zero growcap s idx n v h = Some (s', h')
                         /\ len s' = len s - n + len v)
        /\ (forall vals,
              exists s' h',
                (v <- variadic vals ;; ReplaceN zero growcap s idx n v) h
                = Some (s', h')
                /\ len s' = len s - n + Z.of_nat (length vals))).
Proof.
  assert (Hins : forall h v, valid h s -> valid h v ->
            0 <= from_end s idx <= len s ->
            exists s' h', Insert zero growcap s idx v h = Some (s', h')
                          /\ len s' = len s + len v).
  { clear h. intros h v Hv Hvv Hidx. unfold Insert, len in *.
    pose proof (length_contents h s Hv) as Hl.
    destruct (insert_spec zero growcap h s (position s idx) v Hv Hvv)
      as (s' & h' & block & Hrun & Hv' & Hc & Hlb & _);
      [unfold position; lia|].
    rewrite <- from_end_position in Hrun by lia.
    exists s', h'. split; [exact Hrun|].
    rewrite <- (length_contents h' s' Hv'), Hc. list_len.
    unfold position. lia. }
  assert (Hrep : forall h v, valid h s -> valid h v ->
            0 <= from_end s idx -> 0 <= n -> from_end s idx + n <= len s ->
            exists s' h', ReplaceN zero growcap s idx n v h = Some (s', h')
                          /\ len s' = len s - n + len v).
  { clear h. intros h v Hv Hvv Hidx Hn Hend. unfold ReplaceN, len in *.
    pose proof (length_contents h s Hv) as Hl.
    destruct (replaceN_spec zero growcap h s (position s idx) (Z.to_nat n)
                v Hv Hvv)
      as (s' & h' & block & Hrun & Hv' & Hc & Hlb & _);
      [unfold position; lia|].
    rewrite <- from_end_position, Z2Nat.id in Hrun by lia.
    exists s', h'. split; [exact Hrun|].
    rewrite <- (length_contents h' s' Hv'), Hc. list_len.
    unfold position. lia. }
  intros Hv Hidx. split; [|split].
  - intros Hend. split.
    + intros v Hvv. apply Hins; [assumption | assumption | lia].
    + intros vals.
      destruct (variadic_ok h vals)
        as (v & h0 & Hvar & Hvv & _ & Hlenv & Hkeep).
      destruct (Hkeep s Hv) as (Hv0 & _).
      destruct (Hins h0 v Hv0 Hvv) as (s' & h' & Hrun & Hlen); [lia|].
      exists s', h'. unfold bind. rewrite Hvar.
      split; [exact Hrun|]. rewrite Hlen. unfold len. now rewrite Hlenv.
  - intros Hn Hend. unfold RemoveN, len in *.
    destruct (removeN_spec h s (position s idx) (Z.to_nat n) Hv)
      as (h' & Hrun & _); [unfold position; lia|].
    rewrite <- from_end_position, Z2Nat.id in Hrun by lia.
    eexists _, h'. split; [exact Hrun|]. simpl. lia.
  - intros Hn Hend. split.
    + intros v Hvv. now apply Hrep.
    + intros vals.
      destruct (variadic_ok h vals)
        as (v & h0 & Hvar & Hvv & _ & Hlenv & Hkeep).
      destruct (Hkeep s Hv) as (Hv0 & _).
      destruct (Hrep h0 v Hv0 Hvv) as (s' & h' & Hrun & Hlen); try lia.
      exists s', h'. unfold bind. rewrite Hvar.
      split; [exact Hrun|]. rewrite Hlen. unfold len. now rewrite Hlenv.
Qed.

(** C5.  A negative index counts from the end: for [-len(s) <= i < 0],
    [Get(s, i)] is [Get(s, i + len(s))] and [Put(s, i, v)] stores [v]
    at position [i + len(s)] and nowhere else.  In particular
    [Get([p,q,r], -1)] is [r] and [Put([p,q,r], -1, z)] leaves
    [[p,q,z]]. *)
Theorem negative_index_counts_from_end h s i :
  - len s <= i < 0 ->
  Get s i h = Get s (i + len s) h
  /\ (forall v, Put s i v h = Put s (i + len s) v h)
  /\ (valid h s ->
        exists x, Get s i h = Some (x, h)
                  /\ nth_error (contents h s) (Z.to_nat (i + len s)) = Some x)
  /\ (valid h s -> forall v,
        exists h', Put s i v h = Some (tt, h')
                   /\ contents h' s
                      = firstn (Z.to_nat (i + len s)) (contents h s)
                          ++ v :: skipn (S (Z.to_nat (i + len s)))
                                    (contents h s))
  /\ (forall p q r,
        valid h s -> contents h s = [p; q; r] -> i = -1 ->
        Get s i h = Some (r, h))
  /\ (forall p q r z,
        valid h s -> contents h s = [p; q; r] -> i = -1 ->
        exists h', Put s i z h = Some (tt, h')
                   /\ contents h' s = [p; q; z]).
Proof.
  intros Hi.
  assert (Hneg : from_end s i = i + len s).
  { unfold from_end. destruct (Z.ltb_spec i 0); [reflexivity | lia]. }
  assert (Hpos : from_end s (i + len s) = i + len s)
    by (apply from_end_nonneg; lia).
  assert (Hget : valid h s ->
            exists x, Get s i h = Some (x, h)
              /\ nth_error (contents h s) (Z.to_nat (i + len s)) = Some x).
  { intros Hv. unfold Get. rewrite Hneg. apply index_ok; [exact Hv | lia]. }
  assert (Hput : valid h s -> forall v,
            exists h', Put s i v h = Some (tt, h')
              /\ contents h' s
                 = firstn (Z.to_nat (i + len s)) (contents h s)
                     ++ v :: skipn (S (Z.to_nat (i + len s)))
                               (contents h s)).
  { intros Hv v. unfold Put. rewrite Hneg.
    destruct (assign_ok h s (i + len s) v Hv) as (h' & Hrun & Hc & _);
      [lia|].
    exists h'. split; [exact Hrun|]. rewrite Hc. unfold write_at.
    simpl. now rewrite Nat.add_1_r. }
  split; [|split; [|split; [|split; [|split]]]].
  - unfold Get. now rewrite Hneg, Hpos.
  - intros v. unfold Put. now rewrite Hneg, Hpos.
  - exact Hget.
  - exact Hput.
  - intros p q r Hv Hpqr ->.
    destruct (Hget Hv) as (x & Hrun & Hx).
    pose proof (length_contents h s Hv) as Hl. rewrite Hpqr in Hl, Hx.
    unfold len in Hx. rewrite <- Hl in Hx. simpl in Hx. congruence.
  - intros p q r z Hv Hpqr ->.
    destruct (Hput Hv z) as (h' & Hrun & Hc).
    pose proof (length_contents h s Hv) as Hl. rewrite Hpqr in Hl, Hc.
    unfold len in Hc. rewrite <- Hl in Hc. simpl in Hc.
    exists h'. split; assumption.
Qed.

(** C6.  The end-of-sequence sentinel: for an index [k] whose normalized
    value lies in [[0, len(s)]], [SliceTo(s, k, 0)] is [Suffix(s, k)]:
    an upper bound of 0 stands for [len(s)], and both are the elements
    of [s] from the normalized [k] on. *)
Theorem SliceTo_zero_is_Suffix h s k :
  valid h s -> 0 <= from_end s k <= len s ->
  SliceTo s k 0 h = Suffix s k h
  /\ SliceTo s k 0 h = slice_expr s (from_end s k) (len s) h
  /\ exists v, Suffix s k h = Some (v, h)
               /\ contents h v = skipn (position s k) (contents h s).
Proof.
  intros Hv Hk. pose proof Hv as (_ & Hcap & _). unfold len in Hk.
  split; [reflexivity|]. split; [reflexivity|].
  exists (window s (position s k) (slen s)). unfold Suffix. split.
  - apply slice_from_ok; [apply from_end_position | unfold position]; lia.
  - rewrite contents_window by lia.
    pose proof (length_contents h s Hv) as Hl.
    by_positions.
Qed.

(** C7.  [RemoveN(s, idx, n)], for a normalized index [0 <= idx] and a
    count [n] with [idx + n <= len(s)], returns [s] without the [n]
    elements at the positions [[idx, idx+n)]: the block
    [[idx+n, len(s))] is copied leftward onto position [idx] of the
    same array and the length is cut to [len(s) - n]; [n == 0] changes
    nothing.  [RemoveTo(s, from, to)] removes the positions
    [[from, to)] after normalizing both ends.  In particular
    [RemoveTo([a,b,c,d], 1, 3)] is [[a,d]]. *)
Theorem RemoveN_removes_block h s :
  valid h s ->
  (forall idx n,
     0 <= from_end s idx -> 0 <= n -> from_end s idx + n <= len s ->
     exists s' h',
       RemoveN s idx n h = Some (s', h')
       /\ contents h' s'
          = firstn (position s idx) (contents h s)
              ++ skipn (position s idx + Z.to_nat n) (contents h s)
       /\ len s' = len s - n
       /\ (ptr s' = ptr s /\ off s' = off s /\ scap s' = scap s)
       /\ array_at h' (ptr s)
          = write_at (array_at h (ptr s)) (off s + position s idx)
              (firstn (slen s - (position s idx + Z.to_nat n))
                 (skipn (off s + (position s idx + Z.to_nat n))
                    (array_at h (ptr s))))
       /\ (n = 0 -> s' = s /\ h' = h))
  /\ (forall from to,
        0 <= from_end s from -> from_end s from <= to_end s to ->
        to_end s to <= len s ->
        exists s' h',
          RemoveTo s from to h = Some (s', h')
          /\ contents h' s'
             = firstn (position s from) (contents h s)
                 ++ skipn (Z.to_nat (to_end s to)) (contents h s))
  /\ (forall a b c d,
        contents h s = [a; b; c; d] ->
        exists s' h',
          RemoveTo s 1 3 h = Some (s', h') /\ contents h' s' = [a; d]).
Proof.
  intros Hv. pose proof (length_contents h s Hv) as Hl.
  assert (Hrem : forall k n : nat, (k + n <= slen s)%nat ->
            exists s' h',
              removeN s (Z.of_nat k) (Z.of_nat n) h = Some (s', h')
              /\ contents h' s'
                 = firstn k (contents h s) ++ skipn (k + n) (contents h s)
              /\ len s' = len s - Z.of_nat n
              /\ (ptr s' = ptr s /\ off s' = off s /\ scap s' = scap s)
              /\ array_at h' (ptr s)
                 = write_at (array_at h (ptr s)) (off s + k)
                     (firstn (slen s - (k + n))
                        (skipn (off s + (k + n)) (array_at h (ptr s))))).
  { intros k n Hkn.
    destruct (removeN_spec h s k n Hv Hkn) as (h' & Hrun & Ha & Hc & _).
    eexists _, h'. split; [exact Hrun|]. split; [exact Hc|].
    split; [unfold len; simpl; lia|]. split; [|exact Ha].
    simpl. repeat split; lia. }
  split; [|split].
  - intros idx n Hidx Hn Hend. unfold len in Hend. unfold RemoveN.
    destruct (Hrem (position s idx) (Z.to_nat n))
      as (s' & h' & Hrun & Hc & Hlen & Hsame & Ha);
      [unfold position; lia|].
    rewrite <- from_end_position, Z2Nat.id in Hrun by lia.
    rewrite Z2Nat.id in Hlen by lia.
    exists s', h'. repeat (split; [assumption|]).
    intros ->. rewrite (from_end_position s idx Hidx) in Hrun.
    rewrite removeN_zero in Hrun by (trivial; unfold position; lia).
    injection Hrun as <- <-. auto.
  - intros from to Hfrom Hto Hend. unfold len in Hend. unfold RemoveTo.
    destruct (Hrem (position s from)
                (Z.to_nat (to_end s to) - position s from)%nat)
      as (s' & h' & Hrun & Hc & _); [unfold position; lia|].
    replace (Z.of_nat (Z.to_nat (to_end s to) - position s from))
      with (to_end s to - from_end s from) in Hrun
      by (unfold position; lia).
    rewrite <- from_end_position in Hrun by lia.
    exists s', h'. split; [exact Hrun|]. rewrite Hc.
    do 2 f_equal. unfold position. lia.
  - intros a b c d Habcd. rewrite Habcd in Hl. simpl in Hl.
    unfold RemoveTo.
    destruct (Hrem 1%nat 2%nat) as (s' & h' & Hrun & Hc & _); [lia|].
    exists s', h'. split; [exact Hrun|]. rewrite Hc, Habcd. reflexivity.
Qed.

(** C8.  The four range views are read-only projections: for arguments
    in range, [Prefix(s, idx)] is the elements at [[0, idx)],
    [Suffix(s, idx)] those at [[idx, len(s))], [SliceN(s, idx, n)]
    those at [[idx, idx+n)] and [SliceTo(s, from, to)] those at
    [[from, to)]; each returns the store as it received it, so the
    elements and the length of [s] are what they were. *)
Theorem range_views_are_projections h s :
  valid h s ->
  (forall idx, 0 <= from_end s idx <= len s ->
     exists v, Prefix s idx h = Some (v, h)
               /\ contents h v = firstn (position s idx) (contents h s))
  /\ (forall idx, 0 <= from_end s idx <= len s ->
        exists v, Suffix s idx h = Some (v, h)
                  /\ contents h v = skipn (position s idx) (contents h s))
  /\ (forall idx n,
        0 <= from_end s idx -> 0 <= n -> from_end s idx + n <= len s ->
        exists v, SliceN s idx n h = Some (v, h)
                  /\ contents h v
                     = firstn (Z.to_nat n)
                         (skipn (position s idx) (contents h s)))
  /\ (forall from to,
        0 <= from_end s from -> from_end s from <= to_end s to ->
        to_end s to <= len s ->
        exists v, SliceTo s from to h = Some (v, h)
                  /\ contents h v
                     = firstn (Z.to_nat (to_end s to) - position s from)
                         (skipn (position s from) (contents h s)))
  /\ (forall idx n to v h',
        Prefix s idx h = Some (v, h') \/ Suffix s idx h = Some (v, h')
        \/ SliceN s idx n h = Some (v, h')
        \/ SliceTo s idx to h = Some (v, h') ->
        h' = h /\ contents h' s = contents h s).
Proof.
  intros Hv. pose proof Hv as (_ & Hcap & _).
  pose proof (length_contents h s Hv) as Hl.
  assert (Hview : forall lo hi, 0 <= lo <= hi -> hi <= len s ->
            exists v, slice_expr s lo hi h = Some (v, h)
              /\ contents h v
                 = firstn (Z.to_nat hi - Z.to_nat lo)
                     (skipn (Z.to_nat lo) (contents h s))).
  { intros lo hi Hlo Hhi. unfold len in Hhi.
    exists (window s (Z.to_nat lo) (Z.to_nat hi)). split.
    - apply slice_expr_ok; [lia | unfold cap; lia].
    - apply contents_window. lia. }
  assert (Hpure : forall lo hi v h',
            slice_expr s lo hi h = Some (v, h') -> h' = h).
  { intros lo hi v h'. unfold slice_expr, ret, panic.
    destruct ((0 <=? lo) && (lo <=? hi) && (hi <=? cap s)).
    - now intros [= _ <-].
    - discriminate. }
  split; [|split; [|split; [|split]]].
  - intros idx Hidx. unfold Prefix, slice_to.
    destruct (Hview 0 (from_end s idx)) as (v & Hrun & Hc); try lia.
    exists v. split; [exact Hrun|]. rewrite Hc. simpl.
    now rewrite Nat.sub_0_r.
  - intros idx Hidx. unfold Suffix, slice_from.
    destruct (Hview (from_end s idx) (len s)) as (v & Hrun & Hc); try lia.
    exists v. split; [exact Hrun|]. rewrite Hc. unfold position, len in *.
    apply firstn_all2. list_len. lia.
  - intros idx n Hidx Hn Hend. unfold SliceN.
    destruct (Hview (from_end s idx) (from_end s idx + n))
      as (v & Hrun & Hc); try lia.
    exists v. split; [exact Hrun|]. rewrite Hc. unfold position.
    do 2 f_equal. lia.
  - intros from to Hfrom Hto Hend. unfold SliceTo.
    destruct (Hview (from_end s from) (to_end s to))
      as (v & Hrun & Hc); try lia.
    exists v. split; [exact Hrun|]. exact Hc.
  - intros idx n to v h' Hrun.
    assert (h' = h) as ->; [|auto].
    destruct Hrun as [Hrun | [Hrun | [Hrun | Hrun]]];
      exact (Hpure _ _ _ _ Hrun).
Qed.

(** C9.  No bounds are checked, clamped or translated by the package:
    on a well-formed slice [Get(s, idx)] yields an element exactly when
    the normalized index lies in [[0, len(s))], and it is then the
    element at that position; outside that range the access itself
    panics, and no value is returned.  [Put] stores under the same
    condition and panics outside it. *)
Theorem Get_Put_fault_out_of_range h s idx :
  valid h s ->
  ((exists x h', Get s idx h = Some (x, h')) <-> 0 <= from_end s idx < len s)
  /\ (0 <= from_end s idx < len s ->
        exists x, Get s idx h = Some (x, h)
                  /\ nth_error (contents h s) (position s idx) = Some x)
  /\ (~ 0 <= from_end s idx < len s -> Get s idx h = None)
  /\ (forall v,
        (exists h', Put s idx v h = Some (tt, h'))
        <-> 0 <= from_end s idx < len s)
  /\ (forall v, ~ 0 <= from_end s idx < len s -> Put s idx v h = None).
Proof.
  intros Hv. unfold Get, Put.
  assert (Hdec : 0 <= from_end s idx < len s
                 \/ ~ 0 <= from_end s idx < len s) by lia.
  split; [|split; [|split; [|split]]].
  - split.
    + intros (x & h' & Hrun). destruct Hdec as [Hin|Hout]; [exact Hin|].
      rewrite index_panic in Hrun by exact Hout. discriminate.
    + intros Hin. destruct (index_ok h s _ Hv Hin) as (x & Hrun & _).
      exists x, h. exact Hrun.
  - intros Hin. exact (index_ok h s _ Hv Hin).
  - intros Hout. now apply index_panic.
  - intros v. split.
    + intros (h' & Hrun). destruct Hdec as [Hin|Hout]; [exact Hin|].
      rewrite assign_panic in Hrun by exact Hout. discriminate.
    + intros Hin. destruct (assign_ok h s _ v Hv Hin) as (h' & Hrun & _).
      exists h'. exact Hrun.
  - intros v Hout. now apply assign_panic.
Qed.

(** C10.  Splitting at any position loses nothing: for an index [k]
    whose normalized value lies in [[0, len(s)]], the elements of
    [Prefix(s, k)] followed by those of [Suffix(s, k)] are the elements
    of [s]. *)
Theorem Prefix_Suffix_split h s k :
  valid h s -> 0 <= from_end s k <= len s ->
  exists p q,
    Prefix s k h = Some (p, h)
    /\ Suffix s k h = Some (q, h)
    /\ contents h p ++ contents h q = contents h s.
Proof.
  intros Hv Hk. pose proof Hv as (_ & Hcap & _). unfold len in Hk.
  exists (window s 0 (position s k)), (window s (position s k) (slen s)).
  unfold Prefix, Suffix. split; [|split].
  - apply slice_to_ok; [apply from_end_position | unfold position]; lia.
  - apply slice_from_ok; [apply from_end_position | unfold position]; lia.
  - rewrite !contents_window by (unfold position; lia).
    pose proof (length_contents h s Hv) as Hl.
    by_positions.
Qed.

End Claims.


(** ** The theorems at work on the store of [Demo] *)

Module Run.

Import Demo.

Lemma valid_roomy : valid store roomy.
Proof. unfold valid; simpl; lia. Defined.

Lemma valid_full : valid store full.
Proof. unfold valid; simpl; lia. Defined.

(** Inserting before the last element: into a fresh array for the full
    slice, in place for the one with room; and inserting the first two
    elements of a slice behind themselves. *)
Lemma Insert_places_values_run :
  valid store full /\ 0 <= from_end full (-1) <= len full
  /\ valid store roomy /\ 0 <= from_end roomy (-1) <= len roomy
  /\ valid store front /\ apart front roomy (position roomy (-1))
  /\ (exists s' h',
        (v <- variadic [7; 8] ;; Insert 0 double_cap full (-1) v) store
        = Some (s', h')
        /\ contents h' s' = [1; 2; 3; 7; 8; 4])
  /\ (exists s' h',
        (v <- variadic [7; 8] ;; Insert 0 double_cap roomy (-1) v) store
        = Some (s', h')
        /\ contents h' s' = [10; 20; 7; 8; 30])
  /\ (exists s' h',
        Insert 0 double_cap roomy (-1) front store = Some (s', h')
        /\ contents h' s' = [10; 20; 10; 20; 30]).
Proof.
  assert (Hf : 0 <= from_end full (-1) <= len full)
    by (unfold from_end, len; simpl; lia).
  assert (Hr : 0 <= from_end roomy (-1) <= len roomy)
    by (unfold from_end, len; simpl; lia).
  assert (Hvf : valid store front) by (unfold valid; simpl; lia).
  assert (Hap : apart front roomy (position roomy (-1)))
    by (unfold apart, position, from_end, len; simpl; lia).
  split; [exact valid_full|]. split; [exact Hf|].
  split; [exact valid_roomy|]. split; [exact Hr|].
  split; [exact Hvf|]. split; [exact Hap|].
  destruct (Insert_places_values 0 double_cap store full (-1)
              valid_full Hf) as (Hfull & _).
  destruct (Insert_places_values 0 double_cap store roomy (-1)
              valid_roomy Hr) as (Hroomy & Hstored).
  split; [|split].
  - destruct (Hfull [7; 8]) as (s' & h' & Hrun & Hc & _).
    exists s', h'. split; [exact Hrun | exact Hc].
  - destruct (Hroomy [7; 8]) as (s' & h' & Hrun & Hc & _).
    exists s', h'. split; [exact Hrun | exact Hc].
  - destruct (Hstored front Hvf Hap) as (s' & h' & Hrun & Hc).
    exists s', h'. split; [exact Hrun | exact Hc].
Defined.

(** Replacing two elements by three, by one, and by two: the three
    branches of [replaceN]. *)
Lemma ReplaceN_postcondition_run :
  valid store full /\ 0 <= from_end full (-3) /\ 0 <= 2
  /\ from_end full (-3) + 2 <= len full
  /\ (exists s' h',
        (v <- variadic [7; 8; 9] ;; ReplaceN 0 double_cap full (-3) 2 v)
          store = Some (s', h')
        /\ contents h' s' = [1; 7; 8; 9; 4])
  /\ (exists s' h',
        (v <- variadic [7] ;; ReplaceN 0 double_cap full (-3) 2 v)
          store = Some (s', h')
        /\ contents h' s' = [1; 7; 4])
  /\ (exists s' h',
        (v <- variadic [7; 8] ;; ReplaceN 0 double_cap full (-3) 2 v)
          store = Some (s', h')
        /\ contents h' s' = [1; 7; 8; 4]).
Proof.
  assert (H1 : 0 <= from_end full (-3))
    by (unfold from_end, len; simpl; lia).
  assert (H2 : 0 <= 2) by lia.
  assert (H3 : from_end full (-3) + 2 <= len full)
    by (unfold from_end, len; simpl; lia).
  split; [exact valid_full|]. split; [exact H1|]. split; [exact H2|].
  split; [exact H3|].
  destruct (ReplaceN_postcondition 0 double_cap store full (-3) 2
              valid_full H1 H2 H3) as (Hvals & _).
  split; [|split].
  - destruct (Hvals [7; 8; 9]) as (s' & h' & Hrun & Hc & _).
    exists s', h'. split; [exact Hrun | exact Hc].
  - destruct (Hvals [7]) as (s' & h' & Hrun & Hc & _).
    exists s', h'. split; [exact Hrun | exact Hc].
  - destruct (Hvals [7; 8]) as (s' & h' & Hrun & Hc & _).
    exists s', h'. split; [exact Hrun | exact Hc].
Defined.

Lemma RemoveN_undoes_Insert_run :
  valid store roomy /\ 0 <= 1 <= len roomy
  /\ exists s2 h2,
       (v <- variadic [7; 8] ;;
        s1 <- Insert 0 double_cap roomy 1 v ;;
        RemoveN s1 1 (len v)) store = Some (s2, h2)
       /\ contents h2 s2 = [10; 20; 30].
Proof.
  assert (Hr : 0 <= 1 <= len roomy) by (unfold len; simpl; lia).
  split; [exact valid_roomy|]. split; [exact Hr|].
  destruct (RemoveN_undoes_Insert 0 double_cap store roomy 1
              valid_roomy Hr) as (_ & Hvals).
  destruct (Hvals [7; 8]) as (s2 & h2 & Hrun & Hc & _).
  exists s2, h2. split; [exact Hrun | exact Hc].
Defined.

Lemma length_algebra_run :
  valid store full /\ 0 <= from_end full 1
  /\ from_end full 1 <= len full /\ 0 <= 2
  /\ from_end full 1 + 2 <= len full
  /\ (exists s' h',
        (v <- variadic [7] ;; Insert 0 double_cap full 1 v) store
        = Some (s', h')
        /\ len s' = 5)
  /\ (exists s' h', RemoveN full 1 2 store = Some (s', h') /\ len s' = 2)
  /\ (exists s' h',
        (v <- variadic [7] ;; ReplaceN 0 double_cap full 1 2 v) store
        = Some (s', h')
        /\ len s' = 3).
Proof.
  assert (H1 : 0 <= from_end full 1) by (unfold from_end; simpl; lia).
  assert (H2 : from_end full 1 <= len full)
    by (unfold from_end, len; simpl; lia).
  assert (H3 : 0 <= 2) by lia.
  assert (H4 : from_end full 1 + 2 <= len full)
    by (unfold from_end, len; simpl; lia).
  split; [exact valid_full|]. split; [exact H1|]. split; [exact H2|].
  split; [exact H3|]. split; [exact H4|].
  destruct (length_algebra 0 double_cap store full 1 2 valid_full H1)
    as (Hins & Hrem & Hrep).
  split; [exact (proj2 (Hins H2) [7])|]. split; [exact (Hrem H3 H4)|].
  exact (proj2 (Hrep H3 H4) [7]).
Defined.

Lemma negative_index_counts_from_end_run :
  - len roomy <= -1 < 0 /\ valid store roomy
  /\ Get roomy (-1) store = Get roomy 2 store
  /\ Get roomy (-1) store = Some (30, store)
  /\ exists h', Put roomy (-1) 9 store = Some (tt, h')
                /\ contents h' roomy = [10; 20; 9].
Proof.
  assert (Hi : - len roomy <= -1 < 0) by (unfold len; simpl; lia).
  split; [exact Hi|]. split; [exact valid_roomy|].
  destruct (negative_index_counts_from_end store roomy (-1) Hi)
    as (Hget & _ & _ & _ & Hlast & Hput).
  split; [exact Hget|]. split.
  - exact (Hlast 10 20 30 valid_roomy eq_refl eq_refl).
  - exact (Hput 10 20 30 9 valid_roomy eq_refl eq_refl).
Defined.

Lemma SliceTo_zero_is_Suffix_run :
  valid store full /\ 0 <= from_end full (-3) <= len full
  /\ SliceTo full (-3) 0 store = Suffix full (-3) store
  /\ exists v, Suffix full (-3) store = Some (v, store)
               /\ contents store v = [2; 3; 4].
Proof.
  assert (Hk : 0 <= from_end full (-3) <= len full)
    by (unfold from_end, len; simpl; lia).
  split; [exact valid_full|]. split; [exact Hk|].
  destruct (SliceTo_zero_is_Suffix store full (-3) valid_full Hk)
    as (Heq & _ & v & Hrun & Hc).
  split; [exact Heq|]. exists v. split; [exact Hrun | exact Hc].
Defined.

Lemma RemoveN_removes_block_run :
  valid store full /\ 0 <= from_end full (-3) /\ 0 <= 2
  /\ from_end full (-3) + 2 <= len full
  /\ from_end full (-3) <= to_end full 0 /\ to_end full 0 <= len full
  /\ (exists s' h', RemoveN full (-3) 2 store = Some (s', h')
                    /\ contents h' s' = [1; 4] /\ len s' = 2
                    /\ array_at h' (ptr full) = [1; 4; 3; 4])
  /\ (exists s' h', RemoveTo full (-3) 0 store = Some (s', h')
                    /\ contents h' s' = [1])
  /\ (exists s' h', RemoveTo full 1 3 store = Some (s', h')
                    /\ contents h' s' = [1; 4]).
Proof.
  assert (H1 : 0 <= from_end full (-3))
    by (unfold from_end, len; simpl; lia).
  assert (H2 : 0 <= 2) by lia.
  assert (H3 : from_end full (-3) + 2 <= len full)
    by (unfold from_end, len; simpl; lia).
  assert (H4 : from_end full (-3) <= to_end full 0)
    by (unfold from_end, to_end, len; simpl; lia).
  assert (H5 : to_end full 0 <= len full)
    by (unfold to_end, len; simpl; lia).
  split; [exact valid_full|]. split; [exact H1|]. split; [exact H2|].
  split; [exact H3|]. split; [exact H4|]. split; [exact H5|].
  destruct (RemoveN_removes_block store full valid_full)
    as (HremN & HremTo & Hex).
  split; [|split].
  - destruct (HremN (-3) 2 H1 H2 H3)
      as (s' & h' & Hrun & Hc & Hlen & _ & Ha & _).
    exists s', h'. split; [exact Hrun|]. split; [exact Hc|].
    split; [exact Hlen | exact Ha].
  - destruct (HremTo (-3) 0 H1 H4 H5) as (s' & h' & Hrun & Hc).
    exists s', h'. split; [exact Hrun | exact Hc].
  - exact (Hex 1 2 3 4 eq_refl).
Defined.

Lemma range_views_are_projections_run :
  valid store full /\ 0 <= from_end full (-1) <= len full
  /\ 0 <= 2 /\ from_end full 1 + 2 <= len full
  /\ from_end full 1 <= to_end full (-1) /\ to_end full (-1) <= len full
  /\ (exists v, Prefix full (-1) store = Some (v, store)
                /\ contents store v = [1; 2; 3])
  /\ (exists v, Suffix full (-1) store = Some (v, store)
                /\ contents store v = [4])
  /\ (exists v, SliceN full 1 2 store = Some (v, store)
                /\ contents store v = [2; 3])
  /\ (exists v, SliceTo full 1 (-1) store = Some (v, store)
                /\ contents store v = [2; 3]).
Proof.
  assert (H1 : 0 <= from_end full (-1) <= len full)
    by (unfold from_end, len; simpl; lia).
  assert (H2 : 0 <= 2) by lia.
  assert (H3 : from_end full 1 + 2 <= len full)
    by (unfold from_end, len; simpl; lia).
  assert (H4 : from_end full 1 <= to_end full (-1))
    by (unfold from_end, to_end, len; simpl; lia).
  assert (H5 : to_end full (-1) <= len full)
    by (unfold to_end, len; simpl; lia).
  assert (H6 : 0 <= from_end full 1) by (unfold from_end; simpl; lia).
  split; [exact valid_full|]. split; [exact H1|]. split; [exact H2|].
  split; [exact H3|]. split; [exact H4|]. split; [exact H5|].
  destruct (range_views_are_projections store full valid_full)
    as (Hpre & Hsuf & HsliceN & HsliceTo & _).
  split; [exact (Hpre (-1) H1)|]. split; [exact (Hsuf (-1) H1)|].
  split; [exact (HsliceN 1 2 H6 H2 H3)|].
  exact (HsliceTo 1 (-1) H6 H4 H5).
Defined.

Lemma Get_Put_fault_out_of_range_run :
  valid store roomy
  /\ Get roomy (-3) store = Some (10, store)
  /\ Get roomy 3 store = None
  /\ Get roomy (-4) store = None
  /\ Put roomy 3 9 store = None.
Proof.
  split; [exact valid_roomy|].
  destruct (Get_Put_fault_out_of_range store roomy (-3) valid_roomy)
    as (_ & Hin & _).
  destruct (Get_Put_fault_out_of_range store roomy 3 valid_roomy)
    as (_ & _ & Hhigh & _ & Hput).
  destruct (Get_Put_fault_out_of_range store roomy (-4) valid_roomy)
    as (_ & _ & Hlow & _).
  split; [|split; [|split]].
  - destruct Hin as (x & Hrun & Hx);
      [unfold from_end, len; simpl; lia|].
    injection Hx as <-. exact Hrun.
  - apply Hhigh. unfold from_end, len; simpl; lia.
  - apply Hlow. unfold from_end, len; simpl; lia.
  - apply Hput. unfold from_end, len; simpl; lia.
Defined.

Lemma Prefix_Suffix_split_run :
  valid store full /\ 0 <= from_end full (-1) <= len full
  /\ exists p q,
       Prefix full (-1) store = Some (p, store)
       /\ Suffix full (-1) store = Some (q, store)
       /\ contents store p ++ contents store q = [1; 2; 3; 4].
Proof.
  assert (Hk : 0 <= from_end full (-1) <= len full)
    by (unfold from_end, len; simpl; lia).
  split; [exact valid_full|]. split; [exact Hk|].
  destruct (Prefix_Suffix_split store full (-1) valid_full Hk)
    as (p & q & Hp & Hq & Hc).
  exists p, q. split; [exact Hp|]. split; [exact Hq | exact Hc].
Defined.

(** Why the stored values of C1 and C2 must lie apart from the part of
    [s] behind the index: the built-ins read them from the store when
    they run, and a slice of that part is overwritten before the last
    [copy] reads it.  [Insert(roomy, 0, roomy[1:3]...)] on
    [[10, 20, 30]] is [[20, 10, 10, 20, 30]], and
    [ReplaceN(full, 0, 2, full[2:3]...)] on [[1, 2, 3, 4]] is
    [[4, 3, 4]].  Length and order of the elements of [s] are as C3 and
    C4 state even then. *)
Lemma splice_of_own_elements :
  contents store inner = [20; 30]
  /\ (exists s' h',
        Insert 0 double_cap roomy 0 inner store = Some (s', h')
        /\ contents h' s' = [20; 10; 10; 20; 30])
  /\ contents store (mkSlice 1 2 1 2) = [3]
  /\ (exists s' h',
        ReplaceN 0 double_cap full 0 2 (mkSlice 1 2 1 2) store
        = Some (s', h')
        /\ contents h' s' = [4; 3; 4]).
Proof.
  split; [reflexivity|]. split; [eexists _, _; split; reflexivity|].
  split; [reflexivity|]. eexists _, _; split; reflexivity.
Qed.

End Run.

(** ** Further properties: bounds *)

Section Bounds.

Context {T : Type}.
Variable zero : T.
Variable growcap : nat -> nat -> nat.

Implicit Types (h : heap T) (s t v : slice) (vals l : list T).

Lemma slice_expr_runs s lo hi h :
  (exists v, slice_expr s lo hi h = Some (v, h))
  <-> 0 <= lo <= hi /\ hi <= cap s.
Proof.
  split.
  - intros (v & Hrun).
    assert (Hdec : (0 <= lo <= hi /\ hi <= cap s)
                   \/ ~ (0 <= lo <= hi /\ hi <= cap s)) by lia.
    destruct Hdec as [Hin|Hout]; [exact Hin|].
    rewrite slice_expr_panic in Hrun by exact Hout. discriminate.
  - intros (Hlo & Hhi). eexists. now apply slice_expr_ok.
Qed.

Lemma slice_expr_store s lo hi h v h' :
  slice_expr s lo hi h = Some (v, h') -> h' = h.
Proof.
  unfold slice_expr, ret, panic.
  destruct ((0 <=? lo) && (lo <=? hi) && (hi <=? cap s)).
  - now intros [= _ <-].
  - discriminate.
Qed.

Lemma copy_runs dst src h :
  exists n h', copy dst src h = Some (n, h').
Proof.
  unfold copy, bind, load_array, store_array, ret. eexists _, _.
  reflexivity.
Qed.

(** X1.  The range views check their bounds against the capacity of [s],
    not its length, wherever the upper bound is given: on a well-formed
    slice [Prefix(s, idx)] returns exactly when the normalized index
    lies in [[0, cap(s)]], [SliceN(s, idx, n)] when
    [0 <= idx <= idx + n <= cap(s)], [SliceTo(s, from, to)] when
    [0 <= from <= to <= cap(s)], and only [Suffix(s, idx)] needs
    [idx <= len(s)].  A prefix taken past the length holds the elements
    of [s] followed by those that lie behind it in its array. *)
Theorem views_check_capacity h s :
  valid h s ->
  (forall idx,
     (exists v, Prefix s idx h = Some (v, h))
     <-> 0 <= from_end s idx <= cap s)
  /\ (forall idx,
        (exists v, Suffix s idx h = Some (v, h))
        <-> 0 <= from_end s idx <= len s)
  /\ (forall idx n,
        (exists v, SliceN s idx n h = Some (v, h))
        <-> 0 <= from_end s idx /\ 0 <= n /\ from_end s idx + n <= cap s)
  /\ (forall from to,
        (exists v, SliceTo s from to h = Some (v, h))
        <-> 0 <= from_end s from <= to_end s to /\ to_end s to <= cap s)
  /\ (forall idx,
        len s <= from_end s idx <= cap s ->
        exists v,
          Prefix s idx h = Some (v, h)
          /\ len v = from_end s idx
          /\ contents h v
             = contents h s
                 ++ firstn (position s idx - slen s)
                      (skipn (off s + slen s) (array_at h (ptr s)))).
Proof.
  intros (H0 & H1 & H2).
  split; [|split; [|split; [|split]]].
  - intros idx. unfold Prefix, slice_to. rewrite slice_expr_runs. lia.
  - intros idx. unfold Suffix, slice_from. rewrite slice_expr_runs.
    unfold len, cap. lia.
  - intros idx n. unfold SliceN. rewrite slice_expr_runs. lia.
  - intros from to. unfold SliceTo. rewrite slice_expr_runs. lia.
  - intros idx Hidx. unfold len, cap in Hidx.
    exists (window s 0 (position s idx)). unfold Prefix. split; [|split].
    + apply slice_to_ok; [apply from_end_position | unfold position]; lia.
    + unfold len, position; simpl. lia.
    + unfold contents, window, position; simpl.
      by_positions.
Qed.

(** X2.  [RemoveN(s, idx, n)] on a well-formed slice returns exactly
    when the normalized index lies in [[0, len(s)]], so does
    [idx + n], and [len(s) - n] does not exceed the capacity; the slice
    returned has length [len(s) - n] and lies in the array of [s].  For
    [n >= 0] that is [0 <= idx] and [idx + n <= len(s)]; a negative [n]
    that passes the checks is not refused, and the slice returned is
    longer than [s]. *)
Theorem RemoveN_runs_when_in_bounds h s idx n :
  valid h s ->
  ((exists s' h', RemoveN s idx n h = Some (s', h'))
   <-> 0 <= from_end s idx <= len s
       /\ 0 <= from_end s idx + n <= len s
       /\ len s - n <= cap s)
  /\ (0 <= n ->
      ((exists s' h', RemoveN s idx n h = Some (s', h'))
       <-> 0 <= from_end s idx /\ from_end s idx + n <= len s))
  /\ (forall s' h',
        RemoveN s idx n h = Some (s', h') ->
        len s' = len s - n /\ ptr s' = ptr s /\ off s' = off s
        /\ scap s' = scap s).
Proof.
  intros (H0 & H1 & H2).
  assert (Hrun : forall s' h', RemoveN s idx n h = Some (s', h') ->
            (0 <= from_end s idx <= len s
             /\ 0 <= from_end s idx + n <= len s
             /\ len s - n <= cap s)
            /\ len s' = len s - n /\ ptr s' = ptr s /\ off s' = off s
            /\ scap s' = scap s).
  { intros s' h'. unfold RemoveN, removeN, bind, slice_from, slice_to.
    destruct (slice_expr s (from_end s idx) (len s) h)
      as [[dst h1]|] eqn:Hdst; [|discriminate].
    pose proof (slice_expr_store _ _ _ _ _ _ Hdst) as ->.
    destruct (slice_expr s (from_end s idx + n) (len s) h)
      as [[src h1]|] eqn:Hsrc; [|discriminate].
    pose proof (slice_expr_store _ _ _ _ _ _ Hsrc) as ->.
    destruct (copy_runs dst src h) as (m & h2 & Hcopy). rewrite Hcopy.
    intros Hcut.
    assert (Hb1 : 0 <= from_end s idx <= len s /\ len s <= cap s)
      by (apply (slice_expr_runs s _ _ h); eauto).
    assert (Hb2 : 0 <= from_end s idx + n <= len s /\ len s <= cap s)
      by (apply (slice_expr_runs s _ _ h); eauto).
    assert (Hb3 : 0 <= 0 <= len s - n /\ len s - n <= cap s).
    { apply (slice_expr_runs s _ _ h2). exists s'.
      rewrite Hcut. now rewrite (slice_expr_store _ _ _ _ _ _ Hcut). }
    rewrite slice_expr_ok in Hcut by lia.
    injection Hcut as <- _.
    unfold len, cap in *; simpl. lia. }
  assert (Hconv : 0 <= from_end s idx <= len s
                  /\ 0 <= from_end s idx + n <= len s
                  /\ len s - n <= cap s ->
                  exists s' h', RemoveN s idx n h = Some (s', h')).
  { intros (Hb1 & Hb2 & Hb3). unfold len, cap in *.
    unfold RemoveN, removeN, bind, slice_from, slice_to.
    rewrite !slice_expr_ok by (unfold len, cap; lia).
    match goal with
    | |- context [copy ?d ?r h] =>
        destruct (copy_runs d r h) as (m & h2 & Hcopy); rewrite Hcopy
    end.
    rewrite slice_expr_ok by (unfold len, cap; lia).
    eexists _, _. reflexivity. }
  split; [|split].
  - split; [|exact Hconv].
    intros (s' & h' & Hr). exact (proj1 (Hrun _ _ Hr)).
  - intros Hn. split.
    + intros (s' & h' & Hr). destruct (Hrun _ _ Hr) as (Hb & _). lia.
    + intros Hb. apply Hconv. unfold len, cap in *. lia.
  - intros s' h' Hr. exact (proj2 (Hrun _ _ Hr)).
Qed.

(** X3.  A negative count is refused when the values are listed in the
    call: [ReplaceN(s, idx, n, vals...)] with [n < 0], and
    [ReplaceTo(s, from, to, vals...)] with [to] before [from] after
    normalization, panic at [vals[:delta]], whatever [s] is. *)
Theorem negative_count_panics h s vals :
  (forall idx n, n < 0 ->
     (v <- variadic vals ;; ReplaceN zero growcap s idx n v) h = None)
  /\ (forall from to, to_end s to < from_end s from ->
        (v <- variadic vals ;; ReplaceTo zero growcap s from to v) h
        = None).
Proof.
  assert (Hneg : forall k n, n < 0 ->
            (v <- variadic vals ;; replaceN zero growcap s k n v) h = None).
  { intros k n Hn. unfold bind at 1. unfold variadic, bind, alloc_array, ret.
    unfold replaceN, bind, len; simpl.
    destruct (Z.gtb_spec n (Z.of_nat (length vals))); [lia|].
    destruct (Z.ltb_spec n (Z.of_nat (length vals))); [|lia].
    unfold slice_to. rewrite slice_expr_panic; [reflexivity|].
    unfold cap; simpl. lia. }
  split.
  - intros idx n Hn. unfold ReplaceN. now apply Hneg.
  - intros from to Hlt. unfold ReplaceTo. apply Hneg. lia.
Qed.

End Bounds.

(** ** Further properties: access, views and the [To] functions *)

Section Views.

Context {T : Type}.
Variable zero : T.
Variable growcap : nat -> nat -> nat.

Implicit Types (h : heap T) (s t v : slice) (vals l : list T).

Lemma Get_reads h s idx :
  valid h s -> 0 <= from_end s idx < len s ->
  Get s idx h
  = match nth_error (contents h s) (position s idx) with
    | Some x => Some (x, h)
    | None => None
    end.
Proof.
  intros Hv Hidx. unfold Get.
  destruct (index_ok h s _ Hv Hidx) as (x & Hrun & Hx).
  unfold position. now rewrite Hx.
Qed.

(** X4.  [Get] reads what [Put] wrote: after [Put(s, i, x)] at an index
    in range, [Get] at any index that denotes the same position,
    negative or not, returns [x], and [Get] at any other position in
    range returns what it returned before. *)
Theorem Get_after_Put h s i x :
  valid h s -> 0 <= from_end s i < len s ->
  exists h',
    Put s i x h = Some (tt, h')
    /\ (forall j, from_end s j = from_end s i -> Get s j h' = Some (x, h'))
    /\ (forall j, 0 <= from_end s j < len s ->
          from_end s j <> from_end s i ->
          exists y, Get s j h = Some (y, h) /\ Get s j h' = Some (y, h')).
Proof.
  intros Hv Hi. unfold Put.
  destruct (assign_ok h s _ x Hv Hi) as (h' & Hrun & Hc & Hval).
  pose proof (length_contents h s Hv) as Hl. unfold len in Hi.
  exists h'. split; [exact Hrun|]. split.
  - intros j Hj. rewrite Get_reads by (auto; unfold len; lia).
    unfold position. rewrite Hj, Hc. nth_push. simpl length. nth_split.
    now rewrite Nat.sub_diag.
  - intros j Hj Hne. unfold len in Hj.
    destruct (index_ok h s _ Hv Hj) as (y & Hget & Hy).
    exists y. split; [exact Hget|].
    rewrite Get_reads by (auto; unfold len; lia).
    unfold position. rewrite Hc.
    replace (nth_error (write_at (contents h s) (Z.to_nat (from_end s i)) [x])
               (Z.to_nat (from_end s j)))
      with (nth_error (contents h s) (Z.to_nat (from_end s j)));
      [now rewrite Hy|].
    nth_push; simpl length; nth_split; try reflexivity; f_equal; lia.
Qed.

(** X5.  A view shares the elements of [s]: [Put] through
    [SliceN(s, idx, n)] at position [j] of the view stores at position
    [idx + j] of [s], and [Get] on [s] reads it there. *)
Theorem Put_through_view h s idx n j x :
  valid h s ->
  0 <= from_end s idx -> 0 <= n -> from_end s idx + n <= len s ->
  0 <= j < n ->
  exists v h',
    SliceN s idx n h = Some (v, h)
    /\ Put v j x h = Some (tt, h')
    /\ contents h' s
       = firstn (position s idx + Z.to_nat j) (contents h s)
           ++ x :: skipn (S (position s idx + Z.to_nat j)) (contents h s)
    /\ Get s (from_end s idx + j) h' = Some (x, h').
Proof.
  intros Hv Hidx Hn Hend Hj. pose proof Hv as (H0 & H1 & H2).
  unfold len in Hend.
  set (k := position s idx).
  assert (Hk : from_end s idx = Z.of_nat k) by (apply from_end_position; lia).
  set (v := window s k (k + Z.to_nat n)).
  assert (Hvv : valid h v) by (apply valid_window; [exact Hv | lia]).
  assert (Hjv : from_end v j = j) by (apply from_end_nonneg; lia).
  assert (Hview : SliceN s idx n h = Some (v, h)).
  { unfold SliceN. rewrite slice_expr_ok by (unfold cap; lia).
    unfold v. do 3 f_equal; lia. }
  assert (Hstore : forall pos, (pos < slen s)%nat ->
            contents
              (set_array h (ptr s)
                 (write_at (array_at h (ptr s)) (off s + pos) [x])) s
            = write_at (contents h s) pos [x]).
  { intros pos Hpos. apply contents_write; [exact Hv | simpl; lia]. }
  exists v, (set_array h (ptr s)
               (write_at (array_at h (ptr s)) (off s + (k + Z.to_nat j)) [x])).
  split; [exact Hview|].
  assert (Hput : Put v j x h
                 = Some (tt, set_array h (ptr s)
                           (write_at (array_at h (ptr s))
                              (off s + (k + Z.to_nat j)) [x]))).
  { unfold Put, assign, bind, load_array, store_array. rewrite Hjv.
    replace (0 <=? j) with true by (symmetry; apply Z.leb_le; lia).
    replace (j <? len v) with true
      by (symmetry; apply Z.ltb_lt; unfold len, v; simpl; lia).
    simpl. now rewrite Nat.add_assoc. }
  split; [exact Hput|]. split.
  - rewrite Hstore by lia. unfold write_at. simpl.
    now rewrite Nat.add_1_r.
  - assert (Hvs : valid
                    (set_array h (ptr s)
                       (write_at (array_at h (ptr s))
                          (off s + (k + Z.to_nat j)) [x])) s)
      by (apply valid_write; [exact Hv | simpl; lia | exact Hv]).
    assert (Hfe : from_end s (from_end s idx + j) = from_end s idx + j)
      by (apply from_end_nonneg; lia).
    rewrite Get_reads by (auto; rewrite Hfe; unfold len; lia).
    unfold position at 1. rewrite Hfe, Hstore by lia.
    pose proof (length_contents h s Hv) as Hl.
    replace (Z.to_nat (from_end s idx + j)) with (k + Z.to_nat j)%nat by lia.
    nth_push. simpl length. nth_split. now rewrite Nat.sub_diag.
Qed.

(** X6.  Views compose: for [0 <= a] and [0 < b] the suffix from [a] of
    the prefix up to [b] is [SliceTo(s, a, b)], the same handle on the
    same store, and the one panics when the other does. *)
Theorem Suffix_of_Prefix_is_SliceTo h s a b :
  0 <= a -> 0 < b ->
  (p <- Prefix s b ;; Suffix p a) h = SliceTo s a b h.
Proof.
  intros Ha Hb. unfold Prefix, Suffix, SliceTo, slice_to, slice_from, bind.
  assert (Hto : to_end s b = b).
  { unfold to_end. destruct (Z.ltb_spec b 0); [lia|].
    destruct (Z.eqb_spec b 0); [lia | reflexivity]. }
  rewrite (from_end_nonneg s b), (from_end_nonneg s a), Hto by lia.
  assert (Hdec : b <= cap s \/ ~ b <= cap s) by lia.
  destruct Hdec as [Hcap|Hcap].
  - rewrite (slice_expr_ok s 0 b) by lia.
    set (p := window s (Z.to_nat 0) (Z.to_nat b)).
    assert (Hlp : len p = b) by (unfold len, p; simpl; lia).
    assert (Hcp : cap p = cap s) by (unfold cap, p; simpl; lia).
    rewrite (from_end_nonneg p a), Hlp by lia.
    assert (Hdec : a <= b \/ ~ a <= b) by lia.
    destruct Hdec as [Hab|Hab].
    + rewrite !slice_expr_ok by lia.
      unfold window, p; simpl. do 2 f_equal.
      f_equal; lia.
    + rewrite !slice_expr_panic by lia. reflexivity.
  - rewrite !slice_expr_panic by lia. reflexivity.
Qed.

(** X7.  [ReplaceTo(s, from, to, vals...)], for ends that normalize to
    [0 <= from <= to <= len(s)] and for any list of values, returns the
    elements of [s] before [from], then the values, then the elements
    of [s] from [to] on; with [to == 0] the values replace everything
    from [from] on. *)
Theorem ReplaceTo_replaces_range h s from to :
  valid h s ->
  0 <= from_end s from -> from_end s from <= to_end s to ->
  to_end s to <= len s ->
  forall vals,
    exists s' h',
      (v <- variadic vals ;; ReplaceTo zero growcap s from to v) h
      = Some (s', h')
      /\ contents h' s'
         = firstn (position s from) (contents h s) ++ vals
             ++ skipn (Z.to_nat (to_end s to)) (contents h s)
      /\ len s'
         = len s - (to_end s to - from_end s from) + Z.of_nat (length vals)
      /\ (to = 0 ->
          contents h' s' = firstn (position s from) (contents h s) ++ vals).
Proof.
  intros Hv Hfrom Hto Hend vals. unfold ReplaceTo, bind.
  pose proof (length_contents h s Hv) as Hl. unfold len in Hend.
  destruct (variadic_ok h vals) as (v & h0 & Hvar & Hvv & Hcv & _ & Hkeep).
  destruct (Hkeep s Hv) as (Hv0 & Hc0 & Hne).
  set (k := position s from).
  set (n := (Z.to_nat (to_end s to) - k)%nat).
  assert (Hkn : (k + n <= slen s)%nat) by (unfold n, k, position; lia).
  destruct (replaceN_spec zero growcap h0 s k n v Hv0 Hvv Hkn)
    as (s' & h' & block & Hrun & Hv' & Hc & _ & Hblock).
  rewrite Hblock, Hc0, Hcv in Hc by (left; exact Hne).
  replace (Z.of_nat k) with (from_end s from) in Hrun
    by (unfold k, position; lia).
  replace (Z.of_nat n) with (to_end s to - from_end s from) in Hrun
    by (unfold n, k, position; lia).
  replace (k + n)%nat with (Z.to_nat (to_end s to)) in Hc
    by (unfold n, k, position; lia).
  exists s', h'. rewrite Hvar. split; [exact Hrun|]. split; [exact Hc|].
  split.
  - unfold len. rewrite <- (length_contents h' s' Hv'), Hc. list_len.
    unfold k, position. lia.
  - intros ->. rewrite Hc. unfold to_end, len; simpl.
    rewrite Nat2Z.id, <- Hl, skipn_all. now rewrite app_nil_r.
Qed.


End Views.

(** ** Further properties: what a splice shares with its input *)

Section Sharing.

Context {T : Type}.
Variable zero : T.
Variable growcap : nat -> nat -> nat.

Implicit Types (h : heap T) (s t v : slice) (vals l : list T).

Lemma append_in_place h s v :
  (slen s + slen v <= scap s)%nat ->
  append zero growcap s v h
  = Some ({| ptr := ptr s; off := off s; slen := slen s + slen v;
             scap := scap s |},
          set_array h (ptr s)
            (write_at (array_at h (ptr s)) (off s + slen s) (contents h v))).
Proof.
  intros Hfit. unfold append, bind, load_array, store_array, ret.
  destruct (Nat.leb_spec (slen s + slen v) (scap s)); [reflexivity | lia].
Qed.

Lemma append_fresh h s v :
  (scap s < slen s + slen v)%nat ->
  exists a c,
    append zero growcap s v h
    = Some ({| ptr := length h; off := 0; slen := slen s + slen v;
               scap := c |}, h ++ [a]).
Proof.
  intros Hgrow. unfold append, bind, load_array, alloc_array, ret.
  destruct (Nat.leb_spec (slen s + slen v) (scap s)); [lia|].
  eexists _, _. reflexivity.
Qed.

Lemma slice_expr_array s lo hi h v h' :
  slice_expr s lo hi h = Some (v, h') -> h' = h /\ ptr v = ptr s.
Proof.
  unfold slice_expr, ret, panic.
  destruct ((0 <=? lo) && (lo <=? hi) && (hi <=? cap s)).
  - intros [= <- <-]. auto.
  - discriminate.
Qed.

Lemma copy_array_other dst src h n h' q :
  copy dst src h = Some (n, h') -> q <> ptr dst ->
  array_at h' q = array_at h q.
Proof.
  unfold copy, bind, load_array, store_array, ret.
  intros [= _ <-] Hq. apply array_at_set_array_other. congruence.
Qed.

(** [insert] returns the handle that [append] made, and writes to no
    other array. *)
Lemma insert_handle h s k v s' h' :
  insert zero growcap s k v h = Some (s', h') ->
  exists h1,
    append zero growcap s v h = Some (s', h1)
    /\ (forall q, q <> ptr s' -> array_at h' q = array_at h1 q).
Proof.
  unfold insert, bind, slice_from.
  destruct (append zero growcap s v h) as [[s1 h1]|]; [|discriminate].
  destruct (slice_expr s1 (k + len v) (len s1) h1)
    as [[d1 h2]|] eqn:Hd1; [|discriminate].
  destruct (slice_expr_array _ _ _ _ _ _ Hd1) as (-> & Hp1).
  destruct (slice_expr s1 k (len s1) h1)
    as [[r1 h2]|] eqn:Hr1; [|discriminate].
  destruct (slice_expr_array _ _ _ _ _ _ Hr1) as (-> & _).
  destruct (copy d1 r1 h1) as [[n1 h2]|] eqn:Hc1; [|discriminate].
  destruct (slice_expr s1 k (len s1) h2)
    as [[d2 h3]|] eqn:Hd2; [|discriminate].
  destruct (slice_expr_array _ _ _ _ _ _ Hd2) as (-> & Hp2).
  destruct (copy d2 v h2) as [[n2 h3]|] eqn:Hc2; [|discriminate].
  unfold ret. intros [= <- <-].
  exists h1. split; [reflexivity|].
  intros q Hq.
  rewrite (copy_array_other _ _ _ _ _ q Hc2) by congruence.
  apply (copy_array_other _ _ _ _ _ q Hc1). congruence.
Qed.

Lemma contents_shorter h s s' :
  ptr s' = ptr s -> off s' = off s -> (slen s <= slen s')%nat ->
  contents h s = firstn (slen s) (contents h s').
Proof.
  intros Hp Ho Hl. unfold contents. rewrite Hp, Ho. by_positions.
Qed.

Lemma contents_same_array h h' s :
  array_at h' (ptr s) = array_at h (ptr s) -> contents h' s = contents h s.
Proof.
  unfold contents. now intros ->.
Qed.

(** X9.  [Append(s, vals...)] returns the elements of [s] followed by
    the values, and [s] itself still holds its own elements.  When
    [len(s) + len(vals) <= cap(s)] the slice returned lies in the array
    of [s], at the same place and with the same capacity, and it is
    there that the values were written; otherwise it lies in another
    array and the array of [s] is left as it was. *)
Theorem Append_appends h s vals :
  valid h s ->
  exists s' h',
    (v <- variadic vals ;; Append zero growcap s v) h = Some (s', h')
    /\ contents h' s' = contents h s ++ vals
    /\ len s' = len s + Z.of_nat (length vals)
    /\ contents h' s = contents h s
    /\ (len s + Z.of_nat (length vals) <= cap s ->
        ptr s' = ptr s /\ off s' = off s /\ scap s' = scap s)
    /\ (cap s < len s + Z.of_nat (length vals) ->
        ptr s' <> ptr s /\ array_at h' (ptr s) = array_at h (ptr s)).
Proof.
  intros Hv. unfold Append, bind.
  destruct (variadic_ok h vals)
    as (v & h0 & Hvar & Hvv & Hcv & Hlenv & Hkeep).
  destruct (Hkeep s Hv) as (Hv0 & Hc0 & Hne).
  destruct (append_ok zero growcap h0 s v Hv0 Hvv)
    as (s' & h' & Hrun & Hv' & Hlen & Hc & _ & _ & Hframe).
  rewrite Hvar.
  exists s', h'. split; [exact Hrun|]. split; [|split; [|split; [|split]]].
  - now rewrite Hc, Hc0, Hcv.
  - unfold len. rewrite Hlen, Hlenv. lia.
  - rewrite <- Hc0. apply Hframe; [exact Hv0|].
    unfold apart. lia.
  - unfold len, cap. intros Hfit.
    rewrite append_in_place in Hrun by lia.
    injection Hrun as <- _. auto.
  - unfold len, cap. intros Hgrow.
    destruct (append_fresh h0 s v) as (a & c & Hrun'); [lia|].
    rewrite Hrun' in Hrun. injection Hrun as <- <-. simpl.
    destruct Hv0 as (Hp0 & _). split; [lia|].
    rewrite array_at_alloc_other by exact Hp0.
    unfold variadic, bind, alloc_array, ret in Hvar.
    injection Hvar as _ <-.
    destruct Hv as (Hp & _). now rewrite array_at_alloc_other.
Qed.

(** X10.  What "the input slice is modified" amounts to for [Insert]:
    when [len(s) + len(vals) <= cap(s)] the slice returned lies in the
    array of [s], at the same place and with the same capacity, and [s]
    now holds the first [len(s)] elements of the result; otherwise the
    result lies in another array and [s] holds what it held. *)
Theorem Insert_in_place_or_fresh h s idx vals :
  valid h s -> 0 <= from_end s idx <= len s ->
  exists s' h',
    (v <- variadic vals ;; Insert zero growcap s idx v) h = Some (s', h')
    /\ (len s + Z.of_nat (length vals) <= cap s ->
        ptr s' = ptr s /\ off s' = off s /\ scap s' = scap s
        /\ contents h' s = firstn (slen s) (contents h' s'))
    /\ (cap s < len s + Z.of_nat (length vals) ->
        ptr s' <> ptr s
        /\ array_at h' (ptr s) = array_at h (ptr s)
        /\ contents h' s = contents h s).
Proof.
  intros Hv Hidx. unfold bind, Insert.
  destruct (variadic_ok h vals)
    as (v & h0 & Hvar & Hvv & Hcv & Hlenv & Hkeep).
  destruct (Hkeep s Hv) as (Hv0 & _ & _).
  destruct (insert_spec zero growcap h0 s (position s idx) v Hv0 Hvv)
    as (s' & h' & block & Hins & _); [unfold position, len in *; lia|].
  rewrite <- from_end_position in Hins by lia.
  rewrite Hvar.
  exists s', h'. split; [exact Hins|].
  destruct (insert_handle _ _ _ _ _ _ Hins) as (h1 & Happ & Hother).
  unfold len, cap. rewrite <- Hlenv. split.
  - intros Hfit. rewrite append_in_place in Happ by lia.
    injection Happ as <- _. simpl.
    repeat (split; [reflexivity|]).
    apply contents_shorter; simpl; auto. lia.
  - intros Hgrow.
    destruct (append_fresh h0 s v) as (a & c & Happ'); [lia|].
    rewrite Happ' in Happ. injection Happ as <- <-. simpl in *.
    destruct Hv0 as (Hp0 & _).
    assert (Harr : array_at h' (ptr s) = array_at h (ptr s)).
    { rewrite Hother by lia.
      rewrite array_at_alloc_other by exact Hp0.
      unfold variadic, bind, alloc_array, ret in Hvar.
      injection Hvar as _ <-.
      destruct Hv as (Hp & _). now rewrite array_at_alloc_other. }
    split; [lia|]. split; [exact Harr|].
    now apply contents_same_array.
Qed.

End Sharing.

(** ** Further properties: how the functions compose *)

Section Composition.

Context {T : Type}.
Variable zero : T.
Variable growcap : nat -> nat -> nat.

Implicit Types (h : heap T) (s t v : slice) (vals l : list T).

Lemma write_at_nothing (a : list T) pos : write_at a pos [] = a.
Proof.
  unfold write_at. simpl. rewrite Nat.add_0_r. apply firstn_skipn.
Qed.

(** A copy from or to an empty slice writes nothing. *)
Lemma copy_nothing h dst src :
  slen dst = 0%nat \/ slen src = 0%nat -> copy dst src h = Some (0, h).
Proof.
  intros Hz. unfold copy, bind, load_array, store_array, ret.
  replace (Nat.min (slen dst) (slen src)) with 0%nat by lia.
  simpl firstn. now rewrite write_at_nothing, set_array_same.
Qed.

(** A copy of what is already there leaves the store as it is. *)
Lemma copy_same h dst src (n : nat) :
  n = Nat.min (slen dst) (slen src) ->
  firstn n (skipn (off src) (array_at h (ptr src)))
  = firstn n (skipn (off dst) (array_at h (ptr dst))) ->
  (off dst + n <= length (array_at h (ptr dst)))%nat ->
  copy dst src h = Some (Z.of_nat n, h).
Proof.
  intros -> Heq Hin. unfold copy, bind, load_array, store_array, ret.
  rewrite Heq, write_at_same by exact Hin.
  now rewrite set_array_same.
Qed.

Lemma same_handle s p o n c :
  p = ptr s -> o = off s -> n = slen s -> c = scap s ->
  {| ptr := p; off := o; slen := n; scap := c |} = s.
Proof.
  intros -> -> -> ->. now destruct s.
Qed.

Lemma insert_at_end h s v :
  valid h s -> valid h v -> apart v s (slen s) ->
  insert zero growcap s (len s) v h = append zero growcap s v h.
Proof.
  intros Hv Hvv Hap.
  destruct (append_ok zero growcap h s v Hv Hvv)
    as (s1 & h1 & Happ & Hv1 & Hlen1 & Hc1 & _ & _ & Hfr1).
  pose proof Hv1 as (_ & Hcap1 & Harr1).
  pose proof (length_contents h s Hv) as Hl.
  pose proof (length_contents h v Hvv) as Hlv.
  unfold insert, bind. rewrite Happ.
  rewrite (slice_from_ok h1 s1 _ (slen s1)) by (unfold len; lia).
  rewrite (slice_from_ok h1 s1 _ (slen s)) by (unfold len; lia).
  rewrite copy_nothing by (left; simpl; lia).
  rewrite (slice_from_ok h1 s1 _ (slen s)) by (unfold len; lia).
  rewrite (copy_same h1 _ v (slen v)); [reflexivity | simpl; lia | |].
  - change (contents h1 v
            = firstn (slen v)
                (skipn (off s1 + slen s) (array_at h1 (ptr s1)))).
    rewrite (Hfr1 v Hvv Hap).
    assert (Htail : firstn (slen v)
                      (skipn (off s1 + slen s) (array_at h1 (ptr s1)))
                    = skipn (slen s) (contents h1 s1))
      by (unfold contents; by_positions).
    rewrite Htail, Hc1, skipn_app, <- Hl, skipn_all, Nat.sub_diag.
    reflexivity.
  - simpl. lia.
Qed.

(** X11.  Inserting at [len(s)] is appending: [Insert(s, len(s),
    vals...)] returns the same slice on the same store as
    [Append(s, vals...)], for values listed in the call and for stored
    values that lie apart from the room behind [s]. *)
Theorem Insert_at_end_is_Append h s :
  valid h s ->
  (forall vals,
     (v <- variadic vals ;; Insert zero growcap s (len s) v) h
     = (v <- variadic vals ;; Append zero growcap s v) h)
  /\ (forall v, valid h v -> apart v s (slen s) ->
        Insert zero growcap s (len s) v h = Append zero growcap s v h).
Proof.
  intros Hv.
  assert (Hend : from_end s (len s) = len s)
    by (apply from_end_nonneg; unfold len; lia).
  split.
  - intros vals. unfold bind.
    destruct (variadic_ok h vals) as (v & h0 & Hvar & Hvv & _ & _ & Hkeep).
    destruct (Hkeep s Hv) as (Hv0 & _ & Hne).
    rewrite Hvar. unfold Insert, Append. rewrite Hend.
    apply insert_at_end; [exact Hv0 | exact Hvv | left; exact Hne].
  - intros v Hvv Hap. unfold Insert, Append. rewrite Hend.
    now apply insert_at_end.
Qed.

(** X12.  With no values [Insert] and [Append] return [s] itself, and
    [s] holds what it held. *)
Theorem no_values_no_change h s idx :
  valid h s -> 0 <= from_end s idx <= len s ->
  (exists h',
     (v <- variadic [] ;; Insert zero growcap s idx v) h = Some (s, h')
     /\ contents h' s = contents h s)
  /\ (exists h',
        (v <- variadic [] ;; Append zero growcap s v) h = Some (s, h')
        /\ contents h' s = contents h s).
Proof.
  intros Hv Hidx. unfold bind, Insert, Append.
  destruct (variadic_ok h (@nil T))
    as (v & h0 & Hvar & Hvv & Hcv & Hlenv & Hkeep).
  destruct (Hkeep s Hv) as (Hv0 & Hc0 & Hne).
  pose proof Hv0 as (_ & Hcap & _). simpl in Hlenv.
  rewrite Hvar. split.
  - destruct (insert_spec zero growcap h0 s (position s idx) v Hv0 Hvv)
      as (s' & h' & block & Hins & _ & Hc & _ & Hblock & _);
      [unfold position, len in *; lia|].
    rewrite <- from_end_position in Hins by lia.
    rewrite Hblock, Hcv, Hc0 in Hc by (left; exact Hne).
    simpl in Hc. rewrite firstn_skipn in Hc.
    destruct (insert_handle _ _ _ _ _ _ _ _ Hins) as (h1 & Happ & _).
    rewrite append_in_place in Happ by lia.
    injection Happ as Hs' _.
    rewrite (same_handle s) in Hs' by (auto; lia). subst s'.
    exists h'. split; [exact Hins | exact Hc].
  - destruct (append_ok zero growcap h0 s v Hv0 Hvv)
      as (s' & h' & Happ & _ & _ & Hc & _).
    rewrite Hcv, Hc0, app_nil_r in Hc.
    pose proof Happ as Happ'.
    rewrite append_in_place in Happ' by lia.
    injection Happ' as Hs' _.
    rewrite (same_handle s) in Hs' by (auto; lia). subst s'.
    exists h'. split; [exact Happ | exact Hc].
Qed.

(** X13.  [Insert] undoes [RemoveN]: for [0 <= idx], [0 <= n] and
    [idx + n <= len(s)], inserting the [n] elements that [s] held from
    [idx] on into [RemoveN(s, idx, n)] at [idx] returns [s] itself, in
    its own array, with the elements it held. *)
Theorem Insert_undoes_RemoveN h s idx n :
  valid h s -> 0 <= idx -> 0 <= n -> idx + n <= len s ->
  exists h2,
    (s1 <- RemoveN s idx n ;;
     v <- variadic (firstn (Z.to_nat n)
                      (skipn (Z.to_nat idx) (contents h s))) ;;
     Insert zero growcap s1 idx v) h = Some (s, h2)
    /\ contents h2 s = contents h s.
Proof.
  intros Hv Hidx Hn Hend. unfold len in Hend.
  pose proof Hv as (_ & Hcap & _).
  pose proof (length_contents h s Hv) as Hl.
  set (k := Z.to_nat idx). set (m := Z.to_nat n).
  set (removed := firstn m (skipn k (contents h s))).
  unfold bind, RemoveN, Insert.
  rewrite (from_end_nonneg s idx) by lia.
  destruct (removeN_spec h s k m Hv) as (h1 & Hrem & _ & Hc1 & Hval1 & _);
    [unfold k, m; lia|].
  replace (Z.of_nat k) with idx in Hrem by (unfold k; lia).
  replace (Z.of_nat m) with n in Hrem by (unfold m; lia).
  rewrite Hrem.
  set (s1 := window s 0 (slen s - m)) in *.
  assert (Hv1 : valid h1 s1)
    by (apply valid_window; [auto | lia]).
  destruct (variadic_ok h1 removed)
    as (v & h1' & Hvar & Hvv & Hcv & Hlenv & Hkeep).
  destruct (Hkeep s1 Hv1) as (Hv1' & Hc1' & Hne).
  assert (Hlr : length removed = m)
    by (unfold removed; list_len; unfold k, m; lia).
  rewrite Hvar, (from_end_nonneg s1 idx) by lia.
  destruct (insert_spec zero growcap h1' s1 k v Hv1' Hvv)
    as (s2 & h2 & block & Hins & _ & Hc2 & _ & Hblock & _);
    [unfold s1, k, m; simpl; lia|].
  replace (Z.of_nat k) with idx in Hins by (unfold k; lia).
  rewrite Hblock, Hcv, Hc1', Hc1 in Hc2 by (left; exact Hne).
  destruct (insert_handle _ _ _ _ _ _ _ _ Hins) as (h3 & Happ & _).
  rewrite append_in_place in Happ by (unfold s1; simpl; lia).
  injection Happ as Hs2 _.
  rewrite (same_handle s) in Hs2
    by (unfold s1; simpl; auto; lia).
  subst s2.
  exists h2. split; [exact Hins|].
  rewrite Hc2. unfold removed. by_positions.
Qed.

End Composition.

(** ** Further properties: degenerate replacements and what is left alone *)

Section Frames.

Context {T : Type}.
Variable zero : T.
Variable growcap : nat -> nat -> nat.

Implicit Types (h : heap T) (s t v : slice) (vals l : list T).

(** What a run of [removeN] that returns tells about its arguments. *)
Lemma removeN_returned h s k n s' h' :
  removeN s k n h = Some (s', h') ->
  0 <= k <= len s /\ 0 <= k + n <= len s /\ 0 <= len s - n <= cap s
  /\ s' = window s 0 (Z.to_nat (len s - n)).
Proof.
  unfold removeN, bind, slice_from, slice_to.
  destruct (slice_expr s k (len s) h) as [[dst h1]|] eqn:Hdst;
    [|discriminate].
  pose proof (slice_expr_store _ _ _ _ _ _ Hdst) as ->.
  destruct (slice_expr s (k + n) (len s) h) as [[src h1]|] eqn:Hsrc;
    [|discriminate].
  pose proof (slice_expr_store _ _ _ _ _ _ Hsrc) as ->.
  destruct (copy_runs dst src h) as (m & h2 & Hcopy). rewrite Hcopy.
  intros Hcut.
  assert (Hb1 : 0 <= k <= len s /\ len s <= cap s)
    by (apply (slice_expr_runs s _ _ h); eauto).
  assert (Hb2 : 0 <= k + n <= len s /\ len s <= cap s)
    by (apply (slice_expr_runs s _ _ h); eauto).
  assert (Hb3 : 0 <= 0 <= len s - n /\ len s - n <= cap s).
  { apply (slice_expr_runs s _ _ h2). exists s'.
    rewrite Hcut. now rewrite (slice_expr_store _ _ _ _ _ _ Hcut). }
  rewrite slice_expr_ok in Hcut by lia.
  injection Hcut as <- _. repeat split; lia.
Qed.

(** X14.  The two degenerate uses of [ReplaceN] are the other splices,
    slice for slice and store for store: with no values and [n >= 0] it
    is [RemoveN(s, idx, n)], panics included, and with [n == 0] and an
    index in range it is [Insert(s, idx, vals...)]. *)
Theorem ReplaceN_degenerate h s idx :
  valid h s ->
  (forall n v, 0 <= n -> slen v = 0%nat ->
     ReplaceN zero growcap s idx n v h = RemoveN s idx n h)
  /\ (forall v, valid h v -> 0 <= from_end s idx <= len s ->
        ReplaceN zero growcap s idx 0 v h = Insert zero growcap s idx v h).
Proof.
  intros Hv. pose proof Hv as (_ & Hcap & Harr).
  set (k := from_end s idx).
  assert (Hdec : 0 <= k <= len s \/ ~ 0 <= k <= len s) by lia.
  split.
  - intros n v Hn Hz. unfold ReplaceN, RemoveN, replaceN, bind, len.
    fold k. rewrite Hz. change (Z.of_nat 0) with 0.
    destruct (Z.gtb_spec n 0) as [Hpos|Hzero].
    + rewrite Z.sub_0_r.
      destruct (removeN s k n h) as [[s1 h1]|] eqn:Hrem; [|reflexivity].
      destruct (removeN_returned _ _ _ _ _ _ Hrem)
        as (Hb1 & Hb2 & Hb3 & ->).
      unfold ret. cbv beta iota. unfold slice_from.
      rewrite slice_expr_ok by (unfold len, cap in *; simpl; lia).
      rewrite copy_nothing by (right; exact Hz). reflexivity.
    + destruct (Z.ltb_spec n 0); [lia|].
      assert (n = 0) as -> by lia. unfold ret. cbv beta iota.
      destruct Hdec as [Hin|Hout].
      * unfold len in Hin.
        rewrite (slice_from_ok h s k (Z.to_nat k)) by lia.
        rewrite copy_nothing by (right; exact Hz).
        replace k with (Z.of_nat (Z.to_nat k)) by lia.
        rewrite removeN_zero by (trivial; lia). reflexivity.
      * unfold removeN, bind, slice_from.
        rewrite slice_expr_panic by lia. reflexivity.
  - intros v Hvv Hidx. fold k in Hidx. unfold len in Hidx.
    pose proof Hvv as (_ & Hcapv & _).
    unfold ReplaceN, Insert, replaceN, bind. fold k. unfold len.
    destruct (Z.gtb_spec 0 (Z.of_nat (slen v))); [lia|].
    destruct (Z.ltb_spec 0 (Z.of_nat (slen v))) as [Hsome|Hnone].
    + rewrite (slice_to_ok h v _ (slen v)) by (unfold len; lia).
      rewrite window_all.
      destruct (insert_spec zero growcap h s (Z.to_nat k) v Hv Hvv)
        as (s1 & h1 & block & Hins & Hv1 & Hc1 & Hlb & _); [lia|].
      rewrite Z2Nat.id in Hins by lia. rewrite Hins.
      rewrite (slice_from_ok h1 v _ (slen v)) by (unfold len; lia).
      unfold ret. cbv beta iota.
      pose proof (length_contents h1 s1 Hv1) as Hl1.
      pose proof (length_contents h s Hv) as Hl.
      rewrite Hc1 in Hl1. list_len.
      pose proof Hv1 as (_ & Hcap1 & _).
      rewrite (slice_from_ok h1 s1 _ (Z.to_nat k + slen v))
        by (unfold len; lia).
      rewrite copy_nothing by (right; simpl; lia). reflexivity.
    + assert (Hz : slen v = 0%nat) by lia.
      unfold ret. cbv beta iota.
      rewrite (slice_from_ok h s k (Z.to_nat k)) by lia.
      rewrite copy_nothing by (right; exact Hz).
      unfold insert, bind.
      rewrite append_in_place by lia.
      unfold contents at 1. rewrite Hz. simpl firstn.
      rewrite write_at_nothing, set_array_same.
      rewrite (same_handle s) by (auto; lia).
      unfold len. rewrite Hz, Z.add_0_r.
      rewrite (slice_from_ok h s k (Z.to_nat k)) by lia.
      rewrite (slice_from_ok h s k (Z.to_nat k)) by lia.
      rewrite (copy_same h _ _ (slen s - Z.to_nat k));
        [| simpl; lia | reflexivity | simpl; lia].
      rewrite (slice_from_ok h s k (Z.to_nat k)) by lia.
      rewrite copy_nothing by (right; exact Hz). reflexivity.
Qed.

Lemma insert_place h s k v s' h' :
  insert zero growcap s k v h = Some (s', h') ->
  (ptr s' = ptr s /\ off s' = off s /\ scap s' = scap s)
  \/ ptr s' = length h.
Proof.
  intros Hins.
  destruct (insert_handle _ _ _ _ _ _ _ _ Hins) as (h1 & Happ & _).
  destruct (Nat.le_gt_cases (slen s + slen v) (scap s)) as [Hfit|Hgrow].
  - rewrite append_in_place in Happ by exact Hfit.
    injection Happ as <- _. left. auto.
  - destruct (append_fresh zero growcap h s v Hgrow) as (a & c & Happ').
    rewrite Happ' in Happ. injection Happ as <- _. right. reflexivity.
Qed.

(** [replaceN] leaves what lies apart from [s[k:cap(s)]]. *)
Lemma replaceN_leaves h s (k n : nat) v t :
  valid h s -> valid h v -> (k + n <= slen s)%nat ->
  valid h t -> apart t s k ->
  exists s' h',
    replaceN zero growcap s (Z.of_nat k) (Z.of_nat n) v h = Some (s', h')
    /\ contents h' t = contents h t.
Proof.
  intros Hv Hvv Hkn Ht Hap. pose proof Hv as (_ & Hcap & _).
  pose proof Hvv as (_ & Hcapv & _).
  unfold replaceN, bind, len.
  destruct (Z.gtb_spec (Z.of_nat n) (Z.of_nat (slen v))) as [Hgt|Hle].
  - destruct (removeN_spec h s k (n - slen v) Hv)
      as (h1 & Hrem & _ & _ & Hv1 & Hfr1); try lia.
    replace (Z.of_nat n - Z.of_nat (slen v))
      with (Z.of_nat (n - slen v)) by lia.
    rewrite Hrem.
    set (s1 := window s 0 (slen s - (n - slen v))) in *.
    assert (Hvs1 : valid h1 s1)
      by (apply valid_window; [auto | lia]).
    destruct (copy_into h1 s1 k v Hvs1)
      as (h2 & Hfill & _ & _ & _ & Hfr2); [simpl; lia|].
    unfold ret. cbv beta iota.
    rewrite (slice_from_ok h1 s1 _ k) by (simpl; lia).
    rewrite Hfill.
    exists s1, h2. split; [reflexivity|].
    rewrite Hfr2 by (unfold apart, s1 in *; simpl; lia).
    now apply Hfr1.
  - destruct (Z.ltb_spec (Z.of_nat n) (Z.of_nat (slen v))) as [Hlt|Hge].
    + set (d := (slen v - n)%nat).
      rewrite (slice_to_ok h v _ d) by (unfold d; lia).
      set (head := window v 0 d).
      set (rest := window v d (slen v)).
      assert (Hhead : valid h head) by (apply valid_window; [auto | lia]).
      destruct (insert_spec zero growcap h s k head Hv Hhead)
        as (s1 & h1 & front & Hins & Hv1 & Hc1 & Hlf & _ & Hval1 & Hfr1);
        try lia.
      rewrite Hins.
      rewrite (slice_from_ok h1 v _ d) by (unfold d; lia).
      fold rest. unfold ret. cbv beta iota.
      pose proof (length_contents h1 s1 Hv1) as Hl1.
      pose proof (length_contents h s Hv) as Hl.
      rewrite Hc1 in Hl1. list_len. simpl in Hlf.
      destruct (copy_into h1 s1 (k + d) rest Hv1)
        as (h2 & Hfill & _ & _ & _ & Hfr2); [unfold d in *; lia|].
      rewrite (slice_from_ok h1 s1 _ (k + d))
        by (destruct Hv1 as (_ & ? & _); unfold d in *; lia).
      rewrite Hfill.
      exists s1, h2. split; [reflexivity|].
      rewrite Hfr2; [now apply Hfr1|].
      destruct Ht as (Hpt & _).
      destruct (insert_place _ _ _ _ _ _ Hins) as [(Hp & Ho & Hc)|Hp];
        unfold apart in *; rewrite ?Hp, ?Ho, ?Hc; lia.
    + unfold ret. cbv beta iota.
      destruct (copy_into h s k v Hv)
        as (h1 & Hfill & _ & _ & _ & Hfr1); try lia.
      rewrite (slice_from_ok h s _ k) by lia.
      rewrite Hfill.
      exists s, h1. split; [reflexivity|]. now apply Hfr1.
Qed.

(** X15.  A splice at position [idx] leaves alone whatever lies apart
    from [s[idx:cap(s)]]: a slice in another array, or one that ends
    at or before position [idx] of [s], such as [Prefix(s, idx)], holds
    after [Insert], [RemoveN] and [ReplaceN] what it held before. *)
Theorem splices_leave_the_rest h s idx t :
  valid h s -> valid h t -> 0 <= from_end s idx <= len s ->
  apart t s (position s idx) ->
  (forall vals,
     exists s' h',
       (v <- variadic vals ;; Insert zero growcap s idx v) h = Some (s', h')
       /\ contents h' t = contents h t)
  /\ (forall n, 0 <= n -> from_end s idx + n <= len s ->
        exists s' h',
          RemoveN s idx n h = Some (s', h')
          /\ contents h' t = contents h t)
  /\ (forall n vals, 0 <= n -> from_end s idx + n <= len s ->
        exists s' h',
          (v <- variadic vals ;; ReplaceN zero growcap s idx n v) h
          = Some (s', h')
          /\ contents h' t = contents h t)
  /\ (exists p, Prefix s idx h = Some (p, h)
                /\ valid h p /\ apart p s (position s idx)).
Proof.
  intros Hv Ht Hidx Hap. unfold len in Hidx.
  pose proof Hv as (_ & Hcap & _).
  set (k := position s idx) in *.
  assert (Hk : from_end s idx = Z.of_nat k)
    by (apply from_end_position; lia).
  split; [|split; [|split]].
  - intros vals. unfold bind, Insert.
    destruct (variadic_ok h vals) as (v & h0 & Hvar & Hvv & _ & _ & Hkeep).
    destruct (Hkeep s Hv) as (Hv0 & _ & _).
    destruct (Hkeep t Ht) as (Ht0 & Hct & _).
    destruct (insert_spec zero growcap h0 s k v Hv0 Hvv)
      as (s' & h' & block & Hins & _ & _ & _ & _ & _ & Hfr);
      [unfold k, position; lia|].
    rewrite Hvar, Hk. exists s', h'. split; [exact Hins|].
    rewrite <- Hct. now apply Hfr.
  - intros n Hn Hend. unfold RemoveN, len in *.
    destruct (removeN_spec h s k (Z.to_nat n) Hv)
      as (h' & Hrun & _ & _ & _ & Hfr); [lia|].
    rewrite Z2Nat.id in Hrun by lia.
    rewrite Hk. eexists _, h'. split; [exact Hrun|]. now apply Hfr.
  - intros n vals Hn Hend. unfold bind, ReplaceN, len in *.
    destruct (variadic_ok h vals) as (v & h0 & Hvar & Hvv & _ & _ & Hkeep).
    destruct (Hkeep s Hv) as (Hv0 & _ & _).
    destruct (Hkeep t Ht) as (Ht0 & Hct & _).
    destruct (replaceN_leaves h0 s k (Z.to_nat n) v t Hv0 Hvv)
      as (s' & h' & Hrun & Hfr); [lia | exact Ht0 | exact Hap |].
    rewrite Z2Nat.id in Hrun by lia.
    rewrite Hvar, Hk. exists s', h'. split; [exact Hrun|].
    now rewrite <- Hct.
  - exists (window s 0 k). unfold Prefix. split; [|split].
    + apply slice_to_ok; [exact Hk | lia].
    + apply valid_window; [exact Hv | lia].
    + unfold apart, window; simpl. lia.
Qed.

(** X16.  [Prefix] keeps the capacity of [s], so appending to a prefix
    writes over [s]: for an index in range and values that fit below
    [len(s)], [Append(Prefix(s, idx), vals...)] returns the prefix
    followed by the values, in the array of [s], and [s] then holds the
    values from position [idx] on in place of its own elements. *)
Theorem Append_to_Prefix_overwrites h s idx vals :
  valid h s -> 0 <= from_end s idx ->
  from_end s idx + Z.of_nat (length vals) <= len s ->
  exists s' h',
    (p <- Prefix s idx ;; v <- variadic vals ;; Append zero growcap p v) h
    = Some (s', h')
    /\ ptr s' = ptr s
    /\ contents h' s' = firstn (position s idx) (contents h s) ++ vals
    /\ contents h' s
       = firstn (position s idx) (contents h s) ++ vals
           ++ skipn (position s idx + length vals) (contents h s).
Proof.
  intros Hv Hidx Hend. unfold len in Hend.
  pose proof Hv as (_ & Hcap & _).
  set (k := position s idx).
  assert (Hk : from_end s idx = Z.of_nat k)
    by (apply from_end_position; lia).
  unfold bind, Prefix, Append.
  rewrite (slice_to_ok h s _ k) by (trivial; unfold k, position; lia).
  set (p := window s 0 k).
  destruct (variadic_ok h vals)
    as (v & h0 & Hvar & Hvv & Hcv & Hlenv & Hkeep).
  destruct (Hkeep s Hv) as (Hv0 & Hc0 & _).
  rewrite Hvar.
  rewrite append_in_place by (unfold p, k, position; simpl; lia).
  eexists _, _. split; [reflexivity|]. simpl.
  replace (off s + 0 + (k - 0))%nat with (off s + k)%nat by lia.
  rewrite Hcv.
  assert (Hs : contents
                 (set_array h0 (ptr s)
                    (write_at (array_at h0 (ptr s)) (off s + k) vals)) s
               = write_at (contents h s) k vals).
  { rewrite contents_write by (trivial; unfold k, position; lia).
    now rewrite Hc0. }
  split; [reflexivity|]. split.
  - rewrite (contents_shorter _ _ s) by (simpl; unfold k, position; lia).
    simpl. rewrite Hs.
    pose proof (length_contents h s Hv) as Hl.
    unfold k, position in *. by_positions.
  - rewrite Hs. reflexivity.
Qed.

End Frames.

(** ** Further properties: at and past the end *)

Section Edges.

Context {T : Type}.
Variable zero : T.
Variable growcap : nat -> nat -> nat.

Implicit Types (h : heap T) (s t v : slice) (vals l : list T).

(** X17.  [Insert(s, idx, vals...)] on a well-formed slice returns
    exactly when the normalized index lies in [[0, len(s)]]; outside it
    one of the slice expressions panics, after [append] has run. *)
Theorem Insert_runs_when_in_bounds h s idx vals :
  valid h s ->
  (exists s' h',
     (v <- variadic vals ;; Insert zero growcap s idx v) h = Some (s', h'))
  <-> 0 <= from_end s idx <= len s.
Proof.
  intros Hv. unfold bind, Insert.
  destruct (variadic_ok h vals) as (v & h0 & Hvar & Hvv & _ & _ & Hkeep).
  destruct (Hkeep s Hv) as (Hv0 & _ & _).
  rewrite Hvar. set (k := from_end s idx).
  split.
  - intros (s' & h' & Hrun).
    assert (Hdec : 0 <= k <= len s \/ ~ 0 <= k <= len s) by lia.
    destruct Hdec as [Hin|Hout]; [exact Hin|]. exfalso.
    destruct (append_ok zero growcap h0 s v Hv0 Hvv)
      as (s1 & h1 & Happ & Hv1 & Hlen1 & _).
    unfold insert, bind, slice_from in Hrun. rewrite Happ in Hrun.
    assert (Hdec : 0 <= k + len v <= len s1 \/ ~ 0 <= k + len v <= len s1)
      by lia.
    destruct Hdec as [Hfirst|Hfirst].
    + rewrite slice_expr_ok in Hrun
        by (destruct Hv1 as (_ & ? & _); unfold len, cap in *; lia).
      rewrite (slice_expr_panic s1 k) in Hrun; [discriminate|].
      unfold len in *. lia.
    + rewrite slice_expr_panic in Hrun by lia. discriminate.
  - intros Hin. unfold len in Hin.
    destruct (insert_spec zero growcap h0 s (Z.to_nat k) v Hv0 Hvv)
      as (s' & h' & block & Hrun & _); [lia|].
    rewrite Z2Nat.id in Hrun by lia.
    exists s', h'. exact Hrun.
Qed.

(** X18.  A count that reaches past the end of [s] is not refused when
    as many values are given: for an index in [[0, len(s)]],
    [ReplaceN(s, idx, n, vals...)] with [n == len(vals)] returns [s]
    itself, overwritten from [idx] on with as many values as fit before
    [len(s)]; the values that do not fit are dropped. *)
Theorem ReplaceN_overwrites_up_to_the_end h s idx vals :
  valid h s -> 0 <= from_end s idx <= len s ->
  exists h',
    (v <- variadic vals ;;
     ReplaceN zero growcap s idx (Z.of_nat (length vals)) v) h
    = Some (s, h')
    /\ contents h' s
       = firstn (position s idx) (contents h s)
           ++ firstn (slen s - position s idx) vals
           ++ skipn (position s idx + length vals) (contents h s)
    /\ (len s < from_end s idx + Z.of_nat (length vals) ->
        contents h' s
        = firstn (position s idx) (contents h s)
            ++ firstn (slen s - position s idx) vals).
Proof.
  intros Hv Hidx. unfold len in Hidx. unfold bind, ReplaceN.
  destruct (variadic_ok h vals)
    as (v & h0 & Hvar & Hvv & Hcv & Hlenv & Hkeep).
  destruct (Hkeep s Hv) as (Hv0 & Hc0 & _).
  pose proof Hv0 as (_ & Hcap & _).
  pose proof (length_contents h s Hv) as Hl.
  set (k := position s idx).
  assert (Hk : from_end s idx = Z.of_nat k)
    by (apply from_end_position; lia).
  rewrite Hvar, Hk. unfold replaceN, bind, len. rewrite Hlenv.
  destruct (Z.gtb_spec (Z.of_nat (length vals)) (Z.of_nat (length vals)));
    [lia|].
  destruct (Z.ltb_spec (Z.of_nat (length vals)) (Z.of_nat (length vals)));
    [lia|].
  unfold ret. cbv beta iota.
  destruct (copy_into h0 s k v Hv0)
    as (h1 & Hfill & Hc1 & _); [unfold k, position; lia|].
  rewrite (slice_from_ok h0 s _ k) by (trivial; unfold k, position; lia).
  rewrite Hfill. rewrite Hc0, Hcv, Hlenv in Hc1.
  assert (Hc : contents h1 s
               = firstn k (contents h s) ++ firstn (slen s - k) vals
                   ++ skipn (k + length vals) (contents h s))
    by (rewrite Hc1; unfold k, position in *;
        destruct (Nat.le_gt_cases (slen s - Z.to_nat (from_end s idx))
                    (length vals));
        by_positions).
  exists h1. split; [reflexivity|]. split; [exact Hc|].
  intros Hpast. rewrite Hc, skipn_all2 by (unfold len in Hpast; lia).
  now rewrite app_nil_r.
Qed.

(** X19.  [RemoveN] does not clear the places it vacates: after
    [RemoveN(s, idx, n)] in range, the input slice [s] holds the
    elements of the result followed by the last [n] elements it held
    before. *)
Theorem RemoveN_leaves_old_tail h s idx n :
  valid h s -> 0 <= from_end s idx -> 0 <= n ->
  from_end s idx + n <= len s ->
  exists s' h',
    RemoveN s idx n h = Some (s', h')
    /\ contents h' s
       = contents h' s'
           ++ skipn (slen s - Z.to_nat n) (contents h s).
Proof.
  intros Hv Hidx Hn Hend. unfold len in Hend. unfold RemoveN.
  pose proof Hv as (Hp & Hcap & Harr).
  set (k := position s idx).
  assert (Hk : from_end s idx = Z.of_nat k)
    by (apply from_end_position; lia).
  destruct (removeN_spec h s k (Z.to_nat n) Hv)
    as (h' & Hrun & Ha & Hc & _); [unfold k, position; lia|].
  rewrite Z2Nat.id in Hrun by lia. rewrite Hk.
  eexists _, h'. split; [exact Hrun|].
  rewrite Hc. unfold contents. rewrite Ha.
  unfold k, position in *. by_positions.
Qed.

End Edges.

(** ** The further properties at work on the store of [Demo] *)

Module MoreRuns.

Import Demo.

Lemma roomy_valid : valid store roomy.
Proof. unfold valid; simpl; lia. Defined.

Lemma full_valid : valid store full.
Proof. unfold valid; simpl; lia. Defined.

Lemma front_valid : valid store front.
Proof. unfold valid; simpl; lia. Defined.

(** A prefix of [roomy] one past its length; no suffix from there. *)
Lemma views_check_capacity_run :
  valid store roomy /\ len roomy <= from_end roomy 4 <= cap roomy
  /\ (exists v, Prefix roomy 4 store = Some (v, store)
                /\ contents store v = [10; 20; 30; 0])
  /\ ~ (exists v, Suffix roomy 4 store = Some (v, store)).
Proof.
  assert (Hr : len roomy <= from_end roomy 4 <= cap roomy)
    by (unfold from_end, len, cap; simpl; lia).
  split; [exact roomy_valid|]. split; [exact Hr|].
  destruct (views_check_capacity store roomy roomy_valid)
    as (_ & Hsuf & _ & _ & Hpast).
  split.
  - destruct (Hpast 4 Hr) as (v & Hrun & _ & Hc).
    exists v. split; [exact Hrun | exact Hc].
  - intros Hrun. apply (proj1 (Hsuf 4)) in Hrun.
    unfold from_end, len in Hrun; simpl in Hrun. lia.
Defined.

(** A count of -1 lengthens [roomy]; on [full] there is no room. *)
Lemma RemoveN_runs_when_in_bounds_run :
  valid store roomy /\ valid store full
  /\ (exists s' h', RemoveN roomy 1 (-1) store = Some (s', h')
                    /\ len s' = 4)
  /\ ~ (exists s' h', RemoveN full 1 (-1) store = Some (s', h')).
Proof.
  split; [exact roomy_valid|]. split; [exact full_valid|].
  destruct (RemoveN_runs_when_in_bounds store roomy 1 (-1) roomy_valid)
    as (Hroomy & _ & Hlen).
  destruct (RemoveN_runs_when_in_bounds store full 1 (-1) full_valid)
    as (Hfull & _ & _).
  split.
  - destruct (proj2 Hroomy) as (s' & h' & Hrun);
      [unfold from_end, len, cap; simpl; lia|].
    exists s', h'. split; [exact Hrun|].
    exact (proj1 (Hlen s' h' Hrun)).
  - intros Hrun. apply (proj1 Hfull) in Hrun.
    unfold from_end, len, cap in Hrun; simpl in Hrun. lia.
Defined.

Lemma negative_count_panics_run :
  -1 < 0 /\ to_end roomy 1 < from_end roomy 2
  /\ (v <- variadic [7] ;; ReplaceN 0 double_cap roomy 1 (-1) v) store = None
  /\ (v <- variadic [7] ;; ReplaceTo 0 double_cap roomy 2 1 v) store = None.
Proof.
  assert (H1 : -1 < 0) by lia.
  assert (H2 : to_end roomy 1 < from_end roomy 2)
    by (unfold to_end, from_end; simpl; lia).
  split; [exact H1|]. split; [exact H2|].
  destruct (negative_count_panics 0 double_cap store roomy [7])
    as (Hn & Hto).
  split; [exact (Hn 1 (-1) H1) | exact (Hto 2 1 H2)].
Defined.

Lemma Get_after_Put_run :
  valid store roomy /\ 0 <= from_end roomy (-1) < len roomy
  /\ exists h',
       Put roomy (-1) 9 store = Some (tt, h')
       /\ Get roomy 2 h' = Some (9, h')
       /\ Get roomy 0 h' = Some (10, h').
Proof.
  assert (Hi : 0 <= from_end roomy (-1) < len roomy)
    by (unfold from_end, len; simpl; lia).
  split; [exact roomy_valid|]. split; [exact Hi|].
  destruct (Get_after_Put store roomy (-1) 9 roomy_valid Hi)
    as (h' & Hput & Hsame & Hother).
  exists h'. split; [exact Hput|]. split.
  - apply Hsame. reflexivity.
  - destruct (Hother 0) as (y & Hold & Hnew).
    + unfold from_end, len; simpl; lia.
    + unfold from_end, len; simpl; lia.
    + injection Hold as <-. exact Hnew.
Defined.

Lemma Put_through_view_run :
  valid store full /\ 0 <= from_end full 1 /\ 0 <= 2
  /\ from_end full 1 + 2 <= len full /\ 0 <= 1 < 2
  /\ exists v h',
       SliceN full 1 2 store = Some (v, store)
       /\ Put v 1 9 store = Some (tt, h')
       /\ contents h' full = [1; 2; 9; 4]
       /\ Get full 2 h' = Some (9, h').
Proof.
  assert (H1 : 0 <= from_end full 1) by (unfold from_end; simpl; lia).
  assert (H2 : 0 <= 2) by lia.
  assert (H3 : from_end full 1 + 2 <= len full)
    by (unfold from_end, len; simpl; lia).
  assert (H4 : 0 <= 1 < 2) by lia.
  split; [exact full_valid|]. split; [exact H1|]. split; [exact H2|].
  split; [exact H3|]. split; [exact H4|].
  destruct (Put_through_view store full 1 2 1 9 full_valid H1 H2 H3 H4)
    as (v & h' & Hview & Hput & Hc & Hget).
  exists v, h'. split; [exact Hview|]. split; [exact Hput|].
  split; [exact Hc | exact Hget].
Defined.

Lemma Suffix_of_Prefix_is_SliceTo_run :
  0 <= 1 /\ 0 < 3
  /\ (p <- Prefix full 3 ;; Suffix p 1) store = SliceTo full 1 3 store.
Proof.
  assert (H1 : 0 <= 1) by lia. assert (H2 : 0 < 3) by lia.
  split; [exact H1|]. split; [exact H2|].
  exact (Suffix_of_Prefix_is_SliceTo store full 1 3 H1 H2).
Defined.

Lemma ReplaceTo_replaces_range_run :
  valid store full /\ 0 <= from_end full (-3)
  /\ from_end full (-3) <= to_end full (-1) /\ to_end full (-1) <= len full
  /\ from_end full (-3) <= to_end full 0 /\ to_end full 0 <= len full
  /\ (exists s' h',
        (v <- variadic [7; 8; 9] ;; ReplaceTo 0 double_cap full (-3) (-1) v)
          store = Some (s', h')
        /\ contents h' s' = [1; 7; 8; 9; 4])
  /\ (exists s' h',
        (v <- variadic [7] ;; ReplaceTo 0 double_cap full (-3) 0 v)
          store = Some (s', h')
        /\ contents h' s' = [1; 7]).
Proof.
  assert (H1 : 0 <= from_end full (-3))
    by (unfold from_end, len; simpl; lia).
  assert (H2 : from_end full (-3) <= to_end full (-1))
    by (unfold from_end, to_end, len; simpl; lia).
  assert (H3 : to_end full (-1) <= len full)
    by (unfold to_end, len; simpl; lia).
  assert (H4 : from_end full (-3) <= to_end full 0)
    by (unfold from_end, to_end, len; simpl; lia).
  assert (H5 : to_end full 0 <= len full)
    by (unfold to_end, len; simpl; lia).
  split; [exact full_valid|]. split; [exact H1|]. split; [exact H2|].
  split; [exact H3|]. split; [exact H4|]. split; [exact H5|].
  split.
  - destruct (ReplaceTo_replaces_range 0 double_cap store full (-3) (-1)
                full_valid H1 H2 H3 [7; 8; 9]) as (s' & h' & Hrun & Hc & _).
    exists s', h'. split; [exact Hrun | exact Hc].
  - destruct (ReplaceTo_replaces_range 0 double_cap store full (-3) 0
                full_valid H1 H4 H5 [7]) as (s' & h' & Hrun & _ & _ & Hc).
    exists s', h'. split; [exact Hrun | exact (Hc eq_refl)].
Defined.


Lemma Append_appends_run :
  valid store roomy /\ valid store full
  /\ (exists s' h',
        (v <- variadic [7; 8] ;; Append 0 double_cap roomy v) store
        = Some (s', h')
        /\ contents h' s' = [10; 20; 30; 7; 8] /\ ptr s' = ptr roomy)
  /\ (exists s' h',
        (v <- variadic [7] ;; Append 0 double_cap full v) store
        = Some (s', h')
        /\ contents h' s' = [1; 2; 3; 4; 7] /\ ptr s' <> ptr full
        /\ contents h' full = [1; 2; 3; 4]).
Proof.
  split; [exact roomy_valid|]. split; [exact full_valid|]. split.
  - destruct (Append_appends 0 double_cap store roomy [7; 8] roomy_valid)
      as (s' & h' & Hrun & Hc & _ & _ & Hfit & _).
    exists s', h'. split; [exact Hrun|]. split; [exact Hc|].
    apply Hfit. unfold len, cap; simpl; lia.
  - destruct (Append_appends 0 double_cap store full [7] full_valid)
      as (s' & h' & Hrun & Hc & _ & Hs & _ & Hgrow).
    exists s', h'. split; [exact Hrun|]. split; [exact Hc|].
    split; [|exact Hs].
    apply Hgrow. unfold len, cap; simpl; lia.
Defined.

Lemma Insert_in_place_or_fresh_run :
  valid store roomy /\ 0 <= from_end roomy 1 <= len roomy
  /\ valid store full /\ 0 <= from_end full 1 <= len full
  /\ (exists s' h',
        (v <- variadic [7; 8] ;; Insert 0 double_cap roomy 1 v) store
        = Some (s', h')
        /\ ptr s' = ptr roomy
        /\ contents h' roomy = firstn 3 (contents h' s'))
  /\ (exists s' h',
        (v <- variadic [7] ;; Insert 0 double_cap full 1 v) store
        = Some (s', h')
        /\ ptr s' <> ptr full /\ contents h' full = [1; 2; 3; 4]).
Proof.
  assert (Hr : 0 <= from_end roomy 1 <= len roomy)
    by (unfold from_end, len; simpl; lia).
  assert (Hf : 0 <= from_end full 1 <= len full)
    by (unfold from_end, len; simpl; lia).
  split; [exact roomy_valid|]. split; [exact Hr|].
  split; [exact full_valid|]. split; [exact Hf|]. split.
  - destruct (Insert_in_place_or_fresh 0 double_cap store roomy 1 [7; 8]
                roomy_valid Hr) as (s' & h' & Hrun & Hfit & _).
    destruct Hfit as (Hp & _ & _ & Hc); [unfold len, cap; simpl; lia|].
    exists s', h'. split; [exact Hrun|]. split; [exact Hp | exact Hc].
  - destruct (Insert_in_place_or_fresh 0 double_cap store full 1 [7]
                full_valid Hf) as (s' & h' & Hrun & _ & Hgrow).
    destruct Hgrow as (Hp & _ & Hc); [unfold len, cap; simpl; lia|].
    exists s', h'. split; [exact Hrun|]. split; [exact Hp | exact Hc].
Defined.

Lemma Insert_at_end_is_Append_run :
  valid store roomy
  /\ (v <- variadic [7; 8] ;; Insert 0 double_cap roomy (len roomy) v) store
     = (v <- variadic [7; 8] ;; Append 0 double_cap roomy v) store.
Proof.
  split; [exact roomy_valid|].
  exact (proj1 (Insert_at_end_is_Append 0 double_cap store roomy roomy_valid)
           [7; 8]).
Defined.

Lemma no_values_no_change_run :
  valid store full /\ 0 <= from_end full (-2) <= len full
  /\ (exists h',
        (v <- variadic [] ;; Insert 0 double_cap full (-2) v) store
        = Some (full, h')
        /\ contents h' full = [1; 2; 3; 4]).
Proof.
  assert (Hf : 0 <= from_end full (-2) <= len full)
    by (unfold from_end, len; simpl; lia).
  split; [exact full_valid|]. split; [exact Hf|].
  exact (proj1 (no_values_no_change 0 double_cap store full (-2)
                  full_valid Hf)).
Defined.

Lemma Insert_undoes_RemoveN_run :
  valid store full /\ 0 <= 1 /\ 0 <= 2 /\ 1 + 2 <= len full
  /\ exists h2,
       (s1 <- RemoveN full 1 2 ;;
        v <- variadic [2; 3] ;;
        Insert 0 double_cap s1 1 v) store = Some (full, h2)
       /\ contents h2 full = [1; 2; 3; 4].
Proof.
  assert (H1 : 0 <= 1) by lia. assert (H2 : 0 <= 2) by lia.
  assert (H3 : 1 + 2 <= len full) by (unfold len; simpl; lia).
  split; [exact full_valid|]. split; [exact H1|]. split; [exact H2|].
  split; [exact H3|].
  exact (Insert_undoes_RemoveN 0 double_cap store full 1 2
           full_valid H1 H2 H3).
Defined.

Lemma ReplaceN_degenerate_run :
  valid store full /\ 0 <= 2 /\ valid store front
  /\ 0 <= from_end full 1 <= len full
  /\ ReplaceN 0 double_cap full 1 2 (mkSlice 0 0 0 0) store
     = RemoveN full 1 2 store
  /\ ReplaceN 0 double_cap full 1 0 front store
     = Insert 0 double_cap full 1 front store.
Proof.
  assert (H2 : 0 <= 2) by lia.
  assert (Hf : 0 <= from_end full 1 <= len full)
    by (unfold from_end, len; simpl; lia).
  split; [exact full_valid|]. split; [exact H2|].
  split; [exact front_valid|]. split; [exact Hf|].
  destruct (ReplaceN_degenerate 0 double_cap store full 1 full_valid)
    as (Hrem & Hins).
  split; [exact (Hrem 2 (mkSlice 0 0 0 0) H2 eq_refl)|].
  exact (Hins front front_valid Hf).
Defined.

Lemma splices_leave_the_rest_run :
  valid store roomy /\ valid store front
  /\ 0 <= from_end roomy (-1) <= len roomy
  /\ apart front roomy (position roomy (-1))
  /\ 0 <= 1 /\ from_end roomy (-1) + 1 <= len roomy
  /\ (exists s' h',
        (v <- variadic [7; 8] ;; Insert 0 double_cap roomy (-1) v) store
        = Some (s', h')
        /\ contents h' front = [10; 20])
  /\ (exists s' h',
        RemoveN roomy (-1) 1 store = Some (s', h')
        /\ contents h' front = [10; 20])
  /\ (exists s' h',
        (v <- variadic [7; 8] ;; ReplaceN 0 double_cap roomy (-1) 1 v) store
        = Some (s', h')
        /\ contents h' front = [10; 20]).
Proof.
  assert (Hr : 0 <= from_end roomy (-1) <= len roomy)
    by (unfold from_end, len; simpl; lia).
  assert (Hap : apart front roomy (position roomy (-1)))
    by (unfold apart, position, from_end, len; simpl; lia).
  assert (H1 : 0 <= 1) by lia.
  assert (H2 : from_end roomy (-1) + 1 <= len roomy)
    by (unfold from_end, len; simpl; lia).
  split; [exact roomy_valid|]. split; [exact front_valid|].
  split; [exact Hr|]. split; [exact Hap|]. split; [exact H1|].
  split; [exact H2|].
  destruct (splices_leave_the_rest 0 double_cap store roomy (-1) front
              roomy_valid front_valid Hr Hap) as (Hins & Hrem & Hrep & _).
  split; [exact (Hins [7; 8])|]. split; [exact (Hrem 1 H1 H2)|].
  exact (Hrep 1 [7; 8] H1 H2).
Defined.

Lemma Append_to_Prefix_overwrites_run :
  valid store full /\ 0 <= from_end full 1
  /\ from_end full 1 + Z.of_nat (length [7; 8]) <= len full
  /\ exists s' h',
       (p <- Prefix full 1 ;; v <- variadic [7; 8] ;;
        Append 0 double_cap p v) store = Some (s', h')
       /\ contents h' s' = [1; 7; 8]
       /\ contents h' full = [1; 7; 8; 4].
Proof.
  assert (H1 : 0 <= from_end full 1) by (unfold from_end; simpl; lia).
  assert (H2 : from_end full 1 + Z.of_nat (length [7; 8]) <= len full)
    by (unfold from_end, len; simpl; lia).
  split; [exact full_valid|]. split; [exact H1|]. split; [exact H2|].
  destruct (Append_to_Prefix_overwrites 0 double_cap store full 1 [7; 8]
              full_valid H1 H2) as (s' & h' & Hrun & _ & Hc & Hs).
  exists s', h'. split; [exact Hrun|]. split; [exact Hc | exact Hs].
Defined.

Lemma Insert_runs_when_in_bounds_run :
  valid store roomy
  /\ (exists s' h',
        (v <- variadic [7] ;; Insert 0 double_cap roomy 3 v) store
        = Some (s', h'))
  /\ ~ (exists s' h',
          (v <- variadic [7] ;; Insert 0 double_cap roomy 4 v) store
          = Some (s', h')).
Proof.
  split; [exact roomy_valid|]. split.
  - apply (Insert_runs_when_in_bounds 0 double_cap store roomy 3 [7]
             roomy_valid).
    unfold from_end, len; simpl; lia.
  - intros Hrun.
    apply (Insert_runs_when_in_bounds 0 double_cap store roomy 4 [7]
             roomy_valid) in Hrun.
    unfold from_end, len in Hrun; simpl in Hrun. lia.
Defined.

Lemma ReplaceN_overwrites_up_to_the_end_run :
  valid store full /\ 0 <= from_end full 3 <= len full
  /\ len full < from_end full 3 + Z.of_nat (length [7; 8])
  /\ exists h',
       (v <- variadic [7; 8] ;; ReplaceN 0 double_cap full 3 2 v) store
       = Some (full, h')
       /\ contents h' full = [1; 2; 3; 7].
Proof.
  assert (Hf : 0 <= from_end full 3 <= len full)
    by (unfold from_end, len; simpl; lia).
  assert (Hp : len full < from_end full 3 + Z.of_nat (length [7; 8]))
    by (unfold from_end, len; simpl; lia).
  split; [exact full_valid|]. split; [exact Hf|]. split; [exact Hp|].
  destruct (ReplaceN_overwrites_up_to_the_end 0 double_cap store full 3
              [7; 8] full_valid Hf) as (h' & Hrun & _ & Hc).
  exists h'. split; [exact Hrun | exact (Hc Hp)].
Defined.

Lemma RemoveN_leaves_old_tail_run :
  valid store full /\ 0 <= from_end full 1 /\ 0 <= 2
  /\ from_end full 1 + 2 <= len full
  /\ exists s' h',
       RemoveN full 1 2 store = Some (s', h')
       /\ contents h' full = contents h' s' ++ [3; 4].
Proof.
  assert (H1 : 0 <= from_end full 1) by (unfold from_end; simpl; lia).
  assert (H2 : 0 <= 2) by lia.
  assert (H3 : from_end full 1 + 2 <= len full)
    by (unfold from_end, len; simpl; lia).
  split; [exact full_valid|]. split; [exact H1|]. split; [exact H2|].
  split; [exact H3|].
  destruct (RemoveN_leaves_old_tail store full 1 2 full_valid H1 H2 H3)
    as (s' & h' & Hrun & Hc).
  exists s', h'. split; [exact Hrun | exact Hc].
Defined.

End MoreRuns.
